(** * revilapi: the games and characters REST handlers

    A shallow embedding of
      src/modules/games/controllers/games.controller.ts
      src/modules/characters/controllers/characters.controller.ts
      src/modules/games/models/games.model.ts
      src/modules/characters/models/characters.model.ts
    Every handler is a function from the parsed request and the database
    state to the response sent and the database state left behind.  The
    two Mongoose collections are lists of documents in natural order.  A
    database call throws only for a reason that is in the data (a cast, a
    validator, a unique index): the loss of the connection is not
    modelled.  The ObjectId that the library generates for a new document
    is an argument of the create handlers. *)

From Stdlib Require Import ZArith QArith Ascii String List Lia.
From Stdlib Require Import DecimalString DecimalPos.
From Stdlib Require Qcanon.
From stdpp Require Import base option list strings gmap.

Local Open Scope Z_scope.

(** ** JavaScript values and the builtins the handlers use *)

Module Js.

(** A JavaScript number, a binary64 value.  A finite value is kept as the
    fraction it is, in lowest terms; what is read from a string and what
    an operation gives is rounded to the nearest binary64 value by
    [round64].  The two zeros are one value (both are falsy and print
    alike). *)
Inductive JsNumber : Type :=
| NaN
| Inf (negative : bool)
| Fin (q : Q).

Definition ofZ (z : Z) : JsNumber := Fin (z # 1).

(** [n / d] for [0 <= n] and [0 < d], rounded to the nearest whole number,
    a tie to the even one. *)
Definition roundHalfEven (n d : Z) : Z :=
  let q := n / d in
  match 2 * (n mod d) ?= d with
  | Lt => q
  | Gt => q + 1
  | Eq => if Z.even q then q else q + 1
  end.

(** The exponent of the last place of a binary64 value near [n / d], for
    [0 < n] and [0 < d]: the [e] with [2^52 <= (n/d) / 2^e < 2^53], and
    -1074, the exponent of the subnormal values, when that is lower. *)
Definition lastPlace (n d : Z) : Z :=
  let k := Z.log2 n - Z.log2 d in
  let k := if n * 2 ^ Z.max 0 (- k) <? d * 2 ^ Z.max 0 k then k - 1 else k in
  Z.max (k - 52) (-1074).

(** The binary64 value nearest to the fraction [q], a tie to the one whose
    last bit is even; an infinity from [2^1024 - 2^970] on. *)
Definition round64 (q : Q) : JsNumber :=
  let n := Z.abs (Qnum q) in
  let d := QDen q in
  if n =? 0 then ofZ 0
  else
    let e := lastPlace n d in
    let m := roundHalfEven (n * 2 ^ Z.max 0 (- e)) (d * 2 ^ Z.max 0 e) in
    if 2 ^ 1024 <=? m * 2 ^ Z.max 0 e then Inf (Qnum q <? 0)
    else Fin (Qred (Z.sgn (Qnum q) * m * 2 ^ Z.max 0 e
                    # Z.to_pos (2 ^ Z.max 0 (- e)))).

(** [ToBoolean] on a number: [NaN] and zero are falsy. *)
Definition num_truthy (n : JsNumber) : bool :=
  match n with
  | NaN => false
  | Inf _ => true
  | Fin q => negb (Qnum q =? 0)
  end.

(** [a || b] on numbers. *)
Definition num_or (a b : JsNumber) : JsNumber :=
  if num_truthy a then a else b.

(** [a < b]; any comparison with [NaN] is false. *)
Definition num_lt (a b : JsNumber) : bool :=
  match a, b with
  | NaN, _ | _, NaN => false
  | Inf true, Inf true => false
  | Inf true, _ => true
  | Inf false, _ => false
  | Fin _, Inf negative => negb negative
  | Fin x, Fin y => Qnum x * QDen y <? Qnum y * QDen x
  end.

(** [a - b]. *)
Definition num_sub (a b : JsNumber) : JsNumber :=
  match a, b with
  | NaN, _ | _, NaN => NaN
  | Inf s, Inf t => if Bool.eqb s t then NaN else Inf s
  | Inf s, Fin _ => Inf s
  | Fin _, Inf t => Inf (negb t)
  | Fin x, Fin y => round64 (Qminus x y)
  end.

(** [a * b]. *)
Definition num_mul (a b : JsNumber) : JsNumber :=
  let sign (q : Q) := Qnum q <? 0 in
  match a, b with
  | NaN, _ | _, NaN => NaN
  | Inf s, Inf t => Inf (xorb s t)
  | Inf s, Fin y => if Qnum y =? 0 then NaN else Inf (xorb s (sign y))
  | Fin x, Inf t => if Qnum x =? 0 then NaN else Inf (xorb (sign x) t)
  | Fin x, Fin y => round64 (Qmult x y)
  end.

(** *** [Number(string)]: the StringNumericLiteral grammar

    Strings are sequences of code units below 256, so of the white space
    of the grammar only TAB, LF, VT, FF, CR, SP and NBSP occur. *)

Definition isStrWhiteSpaceChar (c : ascii) : bool :=
  match N_of_ascii c with
  | 9 | 10 | 11 | 12 | 13 | 32 | 160 => true
  | _ => false
  end%N.

Fixpoint trimStart (l : list ascii) : list ascii :=
  match l with
  | c :: l' => if isStrWhiteSpaceChar c then trimStart l' else l
  | [] => []
  end.

Definition trim (l : list ascii) : list ascii :=
  rev (trimStart (rev (trimStart l))).

(** The value of a digit in the given radix, letters in either case. *)
Definition digitOf (radix : Z) (c : ascii) : option Z :=
  let n := Z.of_N (N_of_ascii c) in
  let d := if (48 <=? n) && (n <=? 57) then n - 48
           else if (97 <=? n) && (n <=? 122) then n - 87
           else if (65 <=? n) && (n <=? 90) then n - 55
           else radix in
  if d <? radix then Some d else None.

(** The longest run of digits at the head of [l], read onto [acc]: the
    value, the number of digits read, and what follows them. *)
Fixpoint readDigits (radix : Z) (l : list ascii) (acc : Z) (n : nat)
  : Z * nat * list ascii :=
  match l with
  | c :: l' =>
      match digitOf radix c with
      | Some d => readDigits radix l' (acc * radix + d) (S n)
      | None => (acc, n, l)
      end
  | [] => (acc, n, [])
  end.

(** [m * 10^e], exactly. *)
Definition scale10 (m e : Z) : Q :=
  if 0 <=? e then (m * 10 ^ e) # 1
  else m # Z.to_pos (10 ^ (- e)).

(** ExponentPart, optional: the exponent and what follows it; [None] when
    an [e] is there without its digits. *)
Definition readExponent (l : list ascii) : option (Z * list ascii) :=
  match l with
  | c :: l' =>
      if bool_decide (c = "e"%char) || bool_decide (c = "E"%char) then
        let '(sgn, l'') :=
          match l' with
          | "+"%char :: r => (1, r)
          | "-"%char :: r => (-1, r)
          | _ => (1, l')
          end in
        let '(v, n, rest) := readDigits 10 l'' 0 0 in
        if (n =? 0)%nat then None else Some (sgn * v, rest)
      else Some (0, l)
  | [] => Some (0, [])
  end.

(** StrUnsignedDecimalLiteral: digits, an optional fraction, an optional
    exponent, nothing after; the value written, rounded. *)
Definition unsignedDecimal (l : list ascii) : JsNumber :=
  if bool_decide (l = list_ascii_of_string "Infinity") then Inf false
  else
    let '(i, ni, r1) := readDigits 10 l 0 0 in
    let '(m, nf, r2) :=
      match r1 with
      | "."%char :: r => readDigits 10 r i 0
      | _ => (i, 0%nat, r1)
      end in
    if (ni + nf =? 0)%nat then NaN
    else
      match readExponent r2 with
      | Some (e, []) => round64 (scale10 m (e - Z.of_nat nf))
      | _ => NaN
      end.

Definition num_neg (n : JsNumber) : JsNumber :=
  match n with
  | NaN => NaN
  | Inf s => Inf (negb s)
  | Fin q => Fin (Qopp q)
  end.

(** StrDecimalLiteral: an optional sign before the unsigned literal. *)
Definition signedDecimal (l : list ascii) : JsNumber :=
  match l with
  | "+"%char :: r => unsignedDecimal r
  | "-"%char :: r => num_neg (unsignedDecimal r)
  | _ => unsignedDecimal l
  end.

(** NonDecimalIntegerLiteral: [0x], [0o], [0b] and at least one digit. *)
Definition nonDecimal (l : list ascii) : option JsNumber :=
  match l with
  | "0"%char :: p :: r =>
      let radix :=
        if bool_decide (p = "x"%char) || bool_decide (p = "X"%char) then Some 16
        else if bool_decide (p = "o"%char) || bool_decide (p = "O"%char) then Some 8
        else if bool_decide (p = "b"%char) || bool_decide (p = "B"%char) then Some 2
        else None in
      match radix with
      | Some b =>
          match readDigits b r 0 0 with
          | (v, S _, []) => Some (round64 (v # 1))
          | _ => Some NaN
          end
      | None => None
      end
  | _ => None
  end.

(** [Number(s)] for a string [s]: white space only is zero. *)
Definition StringToNumber (s : string) : JsNumber :=
  match trim (list_ascii_of_string s) with
  | [] => ofZ 0
  | l =>
      match nonDecimal l with
      | Some n => n
      | None => signedDecimal l
      end
  end.

(** *** Request values *)

(** A value of a parsed JSON body. *)
#[warnings="-register-all"]
Inductive JsValue : Type :=
| JNull
| JBool (b : bool)
| JNum (n : JsNumber)
| JStr (s : string)
| JArr (l : list JsValue)
| JObj (fields : list (string * JsValue)).

(** [!!v] for a property read [v]; [None] is [undefined].  Every array and
    every object is truthy, the empty ones too. *)
Definition truthy (v : option JsValue) : bool :=
  match v with
  | None => false
  | Some JNull => false
  | Some (JBool b) => b
  | Some (JNum n) => num_truthy n
  | Some (JStr s) => negb (bool_decide (s = EmptyString))
  | Some (JArr _) => true
  | Some (JObj _) => true
  end.

(** A value of [req.query] as the query parser leaves it: absent, a
    string, a list ([?page=1&page=2]) or an object ([?page[a]=1]). *)
#[warnings="-register-all"]
Inductive QueryValue : Type :=
| QUndefined
| QString (s : string)
| QArray (l : list QueryValue)
| QObject.

Definition join (sep : string) (l : list string) : string :=
  match l with
  | [] => EmptyString
  | s :: l' => fold_left (fun acc t => acc +:+ sep +:+ t) l' s
  end.

(** [String(v)] of a query value; in a list, absent elements print empty. *)
Fixpoint queryToString (v : QueryValue) : string :=
  match v with
  | QUndefined => EmptyString
  | QString s => s
  | QArray l => join "," (List.map queryToString l)
  | QObject => "[object Object]"
  end.

(** [Number(v)]. *)
Definition Number (v : QueryValue) : JsNumber :=
  match v with
  | QUndefined => NaN
  | QString s => StringToNumber s
  | QArray _ => StringToNumber (queryToString v)
  | QObject => NaN
  end.

End Js.

Import Js.

(** ** Mongoose: what the handlers use of the library *)

Module Mongoose.

(** The casts of the library are taken as given: the handlers are verified
    for every behaviour of them.  A cast that answers [None] is a
    CastError. *)
Class Lib : Type := {
  (** [mongoose.Types.ObjectId.isValid(v)] *)
  isValid : JsValue → bool;
  (** the cast to an ObjectId, which is kept in its hexadecimal form *)
  castObjectId : JsValue → option string;
  (** the cast of the schema type [String] *)
  castString : JsValue → option string;
  (** the cast of the schema type [Number] *)
  castNumber : JsValue → option JsNumber;
}.

(** The cast of an array path: a value that is not an array is cast as
    the array of that one value. *)
Definition castArray {A} (cast : JsValue → option A) (v : JsValue)
  : option (list A) :=
  match v with
  | JArr l => mapM cast l
  | _ => x ← cast v; Some [x]
  end.

(** The validator of [required: true] on a [String] path. *)
Definition requiredString (s : string) : option string :=
  if bool_decide (s = EmptyString) then None else Some s.

(** A [required: true] path of a new document: the value must be there. *)
Definition required {A} (cast : JsValue → option A) (v : option JsValue)
  : option A :=
  x ← v; cast x.

(** A path of an update: absent stays absent ([None] inside). *)
Definition castPath {A} (cast : JsValue → option A) (v : option JsValue)
  : option (option A) :=
  match v with
  | None => Some None
  | Some x => Some <$> cast x
  end.

(** The number of documents a [skip] or a [limit] stands for.  The driver
    is only ever handed a skip of at least 0 and a limit of at least 1;
    the server reads a 64-bit integer and refuses a value that is not a
    whole number or is 2^63 or more, NaN and the infinities among them. *)
Definition toCount (n : JsNumber) : option Z :=
  match n with
  | Fin q =>
      if (0 <=? Qnum q) && (Qnum q mod QDen q =? 0)
         && (Qnum q / QDen q <? 2 ^ 63)
      then Some (Qnum q / QDen q) else None
  | _ => None
  end.

(** The first [n] documents of a collection, and the collection without
    its first [n]; a count beyond the collection stops at its end. *)
Definition firstDocs {D} (n : Z) (coll : list D) : list D :=
  take (Z.to_nat (Z.min n (Z.of_nat (length coll)))) coll.

Definition afterDocs {D} (n : Z) (coll : list D) : list D :=
  drop (Z.to_nat (Z.min n (Z.of_nat (length coll)))) coll.

Section Collection.
Context {D : Type} (key : D → string).

(** [find().skip(s).limit(n)]: a window of the collection in natural
    order; a limit of 0 is no limit. *)
Definition findSkipLimit (s n : JsNumber) (coll : list D)
  : option (list D) :=
  s' ← toCount s;
  n' ← toCount n;
  Some (if n' =? 0 then afterDocs s' coll
        else firstDocs n' (afterDocs s' coll)).

(** The first document with this [_id], and the documents around it. *)
Fixpoint locate (id : string) (coll : list D)
  : option (list D * D * list D) :=
  match coll with
  | [] => None
  | d :: coll' =>
      if bool_decide (key d = id) then Some ([], d, coll')
      else '(pre, x, post) ← locate id coll'; Some (d :: pre, x, post)
  end.

Definition lookupId (id : string) (coll : list D) : option D :=
  '(_, d, _) ← locate id coll; Some d.

(** [populate]: every reference that resolves, in the order of the
    references; the others are dropped. *)
Definition resolve {R} (proj : D → R) (coll : list D) (refs : list string)
  : list R :=
  omap (λ id, proj <$> lookupId id coll) refs.
End Collection.

End Mongoose.

Import Mongoose.

(** ** models/games.model.ts *)

Module Games.

(** [IGames]; [R] is what [mainCharacters] holds: ObjectIds in the
    collection, what [populate] selected in a response.  The array paths
    of a schema default to the empty array, so the optional [enemies] and
    [locations] are always there.  The version key [__v], which no handler
    reads or changes, is left out. *)
Record IGames (R : Type) : Type := mkGames {
  _id : string;
  title : string;
  releaseYear : JsNumber;
  platforms : list string;
  genre : string;
  description : string;
  mainCharacters : list R;
  enemies : list string;
  locations : list string;
  developer : string;
}.
Arguments mkGames {R}.
Arguments _id {R}. Arguments title {R}. Arguments releaseYear {R}.
Arguments platforms {R}. Arguments genre {R}. Arguments description {R}.
Arguments mainCharacters {R}. Arguments enemies {R}.
Arguments locations {R}. Arguments developer {R}.

(** What [populate("games", "title")] leaves of a game. *)
Record TitleOnly : Type := { ref : string; ref_title : string }.

Definition titleOnly (g : IGames string) : TitleOnly :=
  {| ref := _id g; ref_title := title g |}.

(** [mainCharacters] replaced by what [populate] resolved. *)
Definition populated {R} (g : IGames string) (rs : list R) : IGames R :=
  mkGames (_id g) (title g) (releaseYear g) (platforms g) (genre g)
    (description g) rs (enemies g) (locations g) (developer g).

Section Schema.
Context `{Lib}.

(** [new Games({title, releaseYear, platforms, genre, description,
    developer})] with the validation [save] runs: the paths are cast,
    the required ones must be there, a required string must not be
    empty, and the three array paths that were not given are empty.
    [oid] is the ObjectId generated for the document. *)
Definition new (oid : string)
    (title releaseYear platforms genre description developer
       : option JsValue)
  : option (IGames string) :=
  t ← required castString title ≫= requiredString;
  y ← required castNumber releaseYear;
  p ← castArray castString (default (JArr []) platforms);
  g ← required castString genre ≫= requiredString;
  d ← required castString description ≫= requiredString;
  v ← required castString developer ≫= requiredString;
  Some (mkGames oid t y p g d [] [] [] v).

(** [doc.save()]: the insert fails on an [_id] that is taken and on a
    [title] that is taken ([unique: true]); a new document goes last. *)
Definition save (g : IGames string) (coll : list (IGames string))
  : option (list (IGames string)) :=
  if bool_decide (_id g ∈ _id <$> coll)
     || bool_decide (title g ∈ title <$> coll)
  then None else Some (coll ++ [g]).

Definition countDocuments (coll : list (IGames string)) : nat :=
  length coll.

(** [Games.findById(id)]: [None] is a throw, [Some None] is no
    document. *)
Definition findById (id : string) (coll : list (IGames string))
  : option (option (IGames string)) :=
  oid ← castObjectId (JStr id);
  Some (lookupId _id oid coll).

(** [Games.findByIdAndDelete(id)]: the document deleted, if any, and
    the collection without it. *)
Definition findByIdAndDelete (id : string) (coll : list (IGames string))
  : option (option (IGames string) * list (IGames string)) :=
  oid ← castObjectId (JStr id);
  Some match locate _id oid coll with
       | Some (pre, g, post) => (Some g, pre ++ post)
       | None => (None, coll)
       end.

(** The update document cast path by path: the paths it sets, as a
    function on the stored document. *)
Definition castUpdate (update : gmap string JsValue)
  : option (IGames string → IGames string) :=
  t ← castPath castString (update !! "title");
  y ← castPath castNumber (update !! "releaseYear");
  p ← castPath (castArray castString) (update !! "platforms");
  g ← castPath castString (update !! "genre");
  d ← castPath castString (update !! "description");
  v ← castPath castString (update !! "developer");
  m ← castPath (castArray castObjectId) (update !! "mainCharacters");
  Some (λ old,
    mkGames (_id old)
      (default (title old) t) (default (releaseYear old) y)
      (default (platforms old) p) (default (genre old) g)
      (default (description old) d) (default (mainCharacters old) m)
      (enemies old) (locations old) (default (developer old) v)).

(** [Games.findByIdAndUpdate(id, update, { new: true })]: the update is
    cast, then applied to the document with this [_id], which keeps its
    place; the write fails when it changes the [title] to one that
    another document has.  [None] is a throw, [Some None] is no
    document. *)
Definition findByIdAndUpdate (id : string) (update : gmap string JsValue)
    (coll : list (IGames string))
  : option (option (IGames string * list (IGames string))) :=
  oid ← castObjectId (JStr id);
  set ← castUpdate update;
  match locate _id oid coll with
  | None => Some None
  | Some (pre, old, post) =>
      let g := set old in
      if bool_decide (title g ≠ title old)
         && bool_decide (title g ∈ title <$> pre ++ post)
      then None
      else Some (Some (g, pre ++ g :: post))
  end.
End Schema.

End Games.

(** ** models/characters.model.ts *)

Module Characters.

(** [ICharacters]; [R] is what [games] holds.  [organizations] follows
    the schema, a list of strings. *)
Record ICharacters (R : Type) : Type := mkCharacters {
  _id : string;
  name : string;
  description : string;
  age : JsNumber;
  nationality : string;
  height : string;
  weight : string;
  occupations : list string;
  games : list R;
  organizations : list string;
}.
Arguments mkCharacters {R}.
Arguments _id {R}. Arguments name {R}. Arguments description {R}.
Arguments age {R}. Arguments nationality {R}. Arguments height {R}.
Arguments weight {R}. Arguments occupations {R}. Arguments games {R}.
Arguments organizations {R}.

(** What [populate("mainCharacters", "name")] leaves of a character. *)
Record NameOnly : Type := { ref : string; ref_name : string }.

Definition nameOnly (c : ICharacters string) : NameOnly :=
  {| ref := _id c; ref_name := name c |}.

(** [games] replaced by what [populate] resolved. *)
Definition populated {R} (c : ICharacters string) (rs : list R)
  : ICharacters R :=
  mkCharacters (_id c) (name c) (description c) (age c) (nationality c)
    (height c) (weight c) (occupations c) rs (organizations c).

Section Schema.
Context `{Lib}.

(** [new Characters({name, description, age, nationality, height,
    weight, occupations, games})] with the validation [save] runs;
    every element of [occupations] is a required string. *)
Definition new (oid : string)
    (name description age nationality height weight occupations games
       : option JsValue)
  : option (ICharacters string) :=
  n ← required castString name ≫= requiredString;
  d ← required castString description ≫= requiredString;
  a ← required castNumber age;
  t ← required castString nationality ≫= requiredString;
  h ← required castString height ≫= requiredString;
  w ← required castString weight ≫= requiredString;
  o ← castArray castString (default (JArr []) occupations)
        ≫= mapM requiredString;
  g ← castArray castObjectId (default (JArr []) games);
  Some (mkCharacters oid n d a t h w o g []).

(** [doc.save()]: the insert fails on an [_id] that is taken. *)
Definition save (c : ICharacters string) (coll : list (ICharacters string))
  : option (list (ICharacters string)) :=
  if bool_decide (_id c ∈ _id <$> coll) then None else Some (coll ++ [c]).

Definition countDocuments (coll : list (ICharacters string)) : nat :=
  length coll.
End Schema.

End Characters.

(** ** The database and the responses *)

(** The two collections, each in natural order. *)
Record Db : Type := mkDb {
  games : list (Games.IGames string);
  characters : list (Characters.ICharacters string);
}.

(** The body of a response, [res.json(...)]. *)
Inductive Json : Type :=
| Message (message : string)
| Game (game : Games.IGames string)
| GamesPage (page limit : JsNumber) (totalGames : nat)
    (games : list (Games.IGames Characters.NameOnly))
| Character (character : Characters.ICharacters (Games.IGames string))
| CharactersPage (page limit : JsNumber) (totalCharacters : nat)
    (characters : list (Characters.ICharacters Games.TitleOnly)).

(** [res.status(status).json(json)]. *)
Record Response : Type := mkResponse { status : nat; json : Json }.

(** [req.query] of the two list routes. *)
Record Query : Type := mkQuery { page : QueryValue; limit : QueryValue }.

Definition dquote : string := String (ascii_of_nat 34) EmptyString.

(** [`The field "${field}" is required`] *)
Definition fieldRequired (field : string) : string :=
  "The field " +:+ dquote +:+ field +:+ dquote +:+ " is required".

Definition internalServerError : Response :=
  mkResponse 500 (Message "Internal Server Error").

(** [for (const field of requiredFields) if (!req.body[field]) ...]: the
    field the loop stops at, if it stops. *)
Fixpoint firstMissing (requiredFields : list string)
    (body : gmap string JsValue) : option string :=
  match requiredFields with
  | [] => None
  | field :: rest =>
      if truthy (body !! field) then firstMissing rest body else Some field
  end.

(** [{ a, b, ... }] built from [req.body]: a property whose value is
    [undefined] is not written to the database. *)
Definition pick (fields : list string) (body : gmap string JsValue)
  : gmap string JsValue :=
  foldr (λ field o,
           match body !! field with
           | Some v => <[field := v]> o
           | None => o
           end) ∅ fields.

(** [if (a) updateData.a = a; ...] over the fields listed. *)
Definition pickTruthy (fields : list string) (body : gmap string JsValue)
  : gmap string JsValue :=
  foldr (λ field updateData,
           match body !! field with
           | Some v => if truthy (Some v) then <[field := v]> updateData
                       else updateData
           | None => updateData
           end) ∅ fields.

(** ** controllers/games.controller.ts *)

Definition createGame_requiredFields : list string :=
  ["title"; "releaseYear"; "platforms"; "genre"; "description"; "developer"].

Definition updateGameById_requiredFields : list string :=
  ["title"; "releaseYear"; "platforms"; "genre"; "description"; "developer";
   "mainCharacters"].

Definition invalidGameId : Response :=
  mkResponse 400 (Message "Invalid GameID format").

Definition gameNotFound : Response :=
  mkResponse 404 (Message "GameID Not Found").

Definition badPagination : Response :=
  mkResponse 400 (Message "Page and limit must be positive numbers").

Section GamesController.
Context `{Lib}.

(** POST /games/create; [oid] is the ObjectId [new Games] generates. *)
Definition createGame (oid : string) (body : gmap string JsValue) (db : Db)
  : Response * Db :=
  match firstMissing createGame_requiredFields body with
  | Some field => (mkResponse 400 (Message (fieldRequired field)), db)
  | None =>
      match
        newGame ← Games.new oid (body !! "title") (body !! "releaseYear")
                    (body !! "platforms") (body !! "genre")
                    (body !! "description") (body !! "developer");
        coll ← Games.save newGame (games db);
        Some (newGame, coll)
      with
      | Some (newGame, coll) =>
          (mkResponse 201 (Game newGame), mkDb coll (characters db))
      | None => (internalServerError, db)
      end
  end.

(** [.populate("mainCharacters", "name")] on one game. *)
Definition populateMainCharacters (db : Db) (g : Games.IGames string)
  : Games.IGames Characters.NameOnly :=
  Games.populated g
    (resolve Characters._id Characters.nameOnly (characters db)
       (Games.mainCharacters g)).

(** GET /games *)
Definition getAllGames (query : Query) (db : Db) : Response * Db :=
  let page := num_or (Number (page query)) (ofZ 1) in
  let limit := num_or (Number (limit query)) (ofZ 10) in
  if num_lt page (ofZ 1) || num_lt limit (ofZ 1) then (badPagination, db)
  else
    let skip := num_mul (num_sub page (ofZ 1)) limit in
    let totalGames := Games.countDocuments (games db) in
    match findSkipLimit skip limit (games db) with
    | Some found =>
        (mkResponse 200
           (GamesPage page limit totalGames
              (populateMainCharacters db <$> found)), db)
    | None => (internalServerError, db)
    end.

(** GET /games/:id *)
Definition getGameById (id : string) (db : Db) : Response * Db :=
  if negb (isValid (JStr id)) then (invalidGameId, db)
  else
    match Games.findById id (games db) with
    | Some (Some game) => (mkResponse 200 (Game game), db)
    | Some None => (gameNotFound, db)
    | None => (internalServerError, db)
    end.

(** DELETE /games/:id *)
Definition deleteGameById (id : string) (db : Db) : Response * Db :=
  if negb (isValid (JStr id)) then (invalidGameId, db)
  else
    match Games.findByIdAndDelete id (games db) with
    | Some (Some _, coll) =>
        (mkResponse 200 (Message "Game Deleted Correctly"),
         mkDb coll (characters db))
    | Some (None, _) => (gameNotFound, db)
    | None => (internalServerError, db)
    end.

(** PUT /games/update/:id *)
Definition updateGameById (id : string) (body : gmap string JsValue)
    (db : Db) : Response * Db :=
  if negb (isValid (JStr id)) then (invalidGameId, db)
  else
    match firstMissing updateGameById_requiredFields body with
    | Some field => (mkResponse 400 (Message (fieldRequired field)), db)
    | None =>
        match Games.findByIdAndUpdate id
                (pick updateGameById_requiredFields body) (games db) with
        | Some (Some (updatedGame, coll)) =>
            (mkResponse 200 (Game updatedGame), mkDb coll (characters db))
        | Some None => (gameNotFound, db)
        | None => (internalServerError, db)
        end
    end.

(** PATCH /games/update/:id *)
Definition updateGameByIdPatch (id : string) (body : gmap string JsValue)
    (db : Db) : Response * Db :=
  if negb (isValid (JStr id)) then (invalidGameId, db)
  else
    let updateData := pickTruthy updateGameById_requiredFields body in
    match Games.findByIdAndUpdate id updateData (games db) with
    | Some (Some (updatedGame, coll)) =>
        (mkResponse 200 (Game updatedGame), mkDb coll (characters db))
    | Some None => (gameNotFound, db)
    | None => (internalServerError, db)
    end.
End GamesController.

(** ** controllers/characters.controller.ts *)

Definition createCharacter_requiredFields : list string :=
  ["name"; "description"; "age"; "nationality"; "height"; "weight";
   "occupations"; "games"].

Definition invalidGameIds : Response :=
  mkResponse 400 (Message "Invalid game ID(s) in the 'games' field").

Section CharactersController.
Context `{Lib}.

(** [games && !games.every(id => ObjectId.isValid(id))]; [None] is the
    TypeError of calling [every] on a value that has none. *)
Definition someInvalidGameId (games : option JsValue) : option bool :=
  if truthy games then
    match games with
    | Some (JArr ids) => Some (negb (forallb isValid ids))
    | _ => None
    end
  else Some false.

(** [.populate("games")] on the new character. *)
Definition populateGames (db : Db) (c : Characters.ICharacters string)
  : Characters.ICharacters (Games.IGames string) :=
  Characters.populated c
    (resolve Games._id id (games db) (Characters.games c)).

(** POST /characters/create; [oid] is the ObjectId [new Characters]
    generates. *)
Definition createCharacter (oid : string) (body : gmap string JsValue)
    (db : Db) : Response * Db :=
  match firstMissing createCharacter_requiredFields body with
  | Some field => (mkResponse 400 (Message (fieldRequired field)), db)
  | None =>
      match someInvalidGameId (body !! "games") with
      | Some true => (invalidGameIds, db)
      | Some false =>
          match
            newCharacter ←
              Characters.new oid (body !! "name") (body !! "description")
                (body !! "age") (body !! "nationality") (body !! "height")
                (body !! "weight") (body !! "occupations")
                (body !! "games");
            coll ← Characters.save newCharacter (characters db);
            Some (newCharacter, coll)
          with
          | Some (newCharacter, coll) =>
              let db' := mkDb (games db) coll in
              (mkResponse 201 (Character (populateGames db' newCharacter)),
               db')
          | None => (internalServerError, db)
          end
      | None => (internalServerError, db)
      end
  end.

(** [.populate("games", "title")] on one character. *)
Definition populateGameTitles (db : Db) (c : Characters.ICharacters string)
  : Characters.ICharacters Games.TitleOnly :=
  Characters.populated c
    (resolve Games._id Games.titleOnly (games db) (Characters.games c)).

(** GET /characters *)
Definition getAllCharacters (query : Query) (db : Db) : Response * Db :=
  let page := num_or (Number (page query)) (ofZ 1) in
  let limit := num_or (Number (limit query)) (ofZ 10) in
  if num_lt page (ofZ 1) || num_lt limit (ofZ 1) then (badPagination, db)
  else
    let skip := num_mul (num_sub page (ofZ 1)) limit in
    let totalCharacters := Characters.countDocuments (characters db) in
    match findSkipLimit skip limit (characters db) with
    | Some found =>
        (mkResponse 200
           (CharactersPage page limit totalCharacters
              (populateGameTitles db <$> found)), db)
    | None => (internalServerError, db)
    end.
End CharactersController.

(** ** An instance of the library for the examples

    ObjectIds are the strings of 24 hexadecimal digits, stored in lower
    case; a value that already has the type of its path is cast to
    itself, and no other value is cast. *)

Module Example.

Definition isHex24 (s : string) : bool :=
  let l := list_ascii_of_string s in
  (length l =? 24)%nat && forallb (λ c, bool_decide (is_Some (digitOf 16 c))) l.

Definition lowerHex (c : ascii) : ascii :=
  let n := N_of_ascii c in
  if ((65 <=? n) && (n <=? 70))%N then ascii_of_N (n + 32) else c.

Definition hexString (v : JsValue) : option string :=
  match v with
  | JStr s =>
      if isHex24 s
      then Some (string_of_list_ascii (lowerHex <$> list_ascii_of_string s))
      else None
  | _ => None
  end.

#[local] Instance lib : Lib := {|
  isValid v := bool_decide (is_Some (hexString v));
  castObjectId := hexString;
  castString v := match v with JStr s => Some s | _ => None end;
  castNumber v := match v with JNum n => Some n | _ => None end;
|}.

Definition residentEvil : gmap string JsValue :=
  list_to_map
    [("title", JStr "Resident Evil"); ("releaseYear", JNum (ofZ 1996));
     ("platforms", JArr [JStr "PlayStation"]); ("genre", JStr "Horror");
     ("description", JStr "Mansion"); ("developer", JStr "Capcom")].

Definition oid1 : string := "65f0a1b2c3d4e5f601234567".
Definition oid2 : string := "65f0a1b2c3d4e5f601234568".

Definition oid3 : string := "65f0a1b2c3d4e5f601234569".
Definition oid4 : string := "65f0a1b2c3d4e5f60123456a".
Definition oid5 : string := "65f0a1b2c3d4e5f60123456b".
Definition oid6 : string := "65f0a1b2c3d4e5f60123456c".

Definition empty : Db := mkDb [] [].

Definition game (oid title : string) (year : Z) (mains : list string)
  : Games.IGames string :=
  Games.mkGames oid title (ofZ year) ["PlayStation"] "Horror" "Survival"
    mains [] [] "Capcom".

Definition jill : Characters.ICharacters string :=
  Characters.mkCharacters oid5 "Jill Valentine" "S.T.A.R.S. member"
    (ofZ 23) "American" "166 cm" "56 kg" ["Officer"] [oid1; oid3] [].

(** Four games and one character. *)
Definition library : Db :=
  mkDb
    [game oid1 "Resident Evil" 1996 [oid5];
     game oid2 "Resident Evil 2" 1998 [];
     game oid3 "Resident Evil 3" 1999 [oid5];
     game oid4 "Resident Evil Code: Veronica" 2000 []]
    [jill].

Definition chris : gmap string JsValue :=
  list_to_map
    [("name", JStr "Chris Redfield"); ("description", JStr "Pilot");
     ("age", JNum (ofZ 25)); ("nationality", JStr "American");
     ("height", JStr "181 cm"); ("weight", JStr "80 kg");
     ("occupations", JArr [JStr "Officer"]);
     ("games", JArr [JStr oid1; JStr "abc"])].

End Example.


(** ** What the statements below speak of *)

(** A property read that the required-field loop takes as missing. *)
Definition falsy (v : option JsValue) : Prop := truthy v = false.

(** [f] is the first of [fields], in their order, that [body] misses. *)
Definition firstMissingOf (fields : list string) (body : gmap string JsValue)
    (f : string) : Prop :=
  ∃ pre post,
    fields = pre ++ f :: post
    ∧ Forall (λ x, truthy (body !! x) = true) pre
    ∧ falsy (body !! f).

(** The response that rejects a request for the required field [f]. *)
Definition rejectedFor (f : string) (r : Response) : Prop :=
  r = mkResponse 400 (Message (fieldRequired f)).

(** A query value that does not parse to a nonzero number. *)
Definition defaulted (v : QueryValue) : Prop := num_truthy (Number v) = false.

(** A query value that parses to a nonzero number below 1. *)
Definition belowOne (v : QueryValue) : Prop :=
  num_truthy (Number v) = true ∧ num_lt (Number v) (ofZ 1) = true.

(** The number a list handler works with for the query value [v] whose
    default is [d]: the default when [v] is defaulted, the value itself
    when [v] is a whole number of at least 1. *)
Definition effective (v : QueryValue) (d n : Z) : Prop :=
  (defaulted v ∧ n = d) ∨ (1 ≤ n ∧ Number v = ofZ n).

(** Every game has its own [_id] and its own [title], and every character
    its own [_id]: what the indexes of the two collections keep. *)
Definition uniqueKeys (db : Db) : Prop :=
  NoDup (Games._id <$> games db)
  ∧ NoDup (Games.title <$> games db)
  ∧ NoDup (Characters._id <$> characters db).

(** A response that, when it is an error, is one of the fixed ones: a 500
    is [Internal Server Error], a 404 is [GameID Not Found], and a status
    of 400 or more comes with a message and nothing else. *)
Definition errorShape (r : Response) : Prop :=
  (status r = 500%nat → r = internalServerError)
  ∧ (status r = 404%nat → r = gameNotFound)
  ∧ ((400 ≤ status r)%nat → ∃ m, json r = Message m).

(** The games of a list response, and the characters of one. *)
Definition gamesOf (r : Response)
  : list (Games.IGames Characters.NameOnly) :=
  match json r with
  | GamesPage _ _ _ found => found
  | _ => []
  end.

Definition charactersOf (r : Response)
  : list (Characters.ICharacters Games.TitleOnly) :=
  match json r with
  | CharactersPage _ _ _ found => found
  | _ => []
  end.

(** The decimal numeral of a positive whole number, as a client writes it
    in a query string. *)
Definition decimal (p : positive) : string :=
  NilEmpty.string_of_uint (Pos.to_uint p).

(** * The required-field loop *)

Lemma firstMissing_spec fields body :
  match firstMissing fields body with
  | Some f => firstMissingOf fields body f
  | None => Forall (λ x, truthy (body !! x) = true) fields
  end.
Proof.
  induction fields as [|x fields IH]; simpl; [constructor|].
  destruct (truthy (body !! x)) eqn:Hx.
  - destruct (firstMissing fields body) as [f|].
    + destruct IH as (pre & post & -> & Hpre & Hf).
      exists (x :: pre), post. split_and!; [done| |done].
      by constructor.
    + by constructor.
  - by exists [], fields.
Qed.

Lemma firstMissing_None fields body :
  firstMissing fields body = None
  ↔ Forall (λ x, truthy (body !! x) = true) fields.
Proof.
  split.
  - intros E. pose proof (firstMissing_spec fields body) as S.
    by rewrite E in S.
  - induction 1 as [|x fields Hx _ IH]; simpl; [done|]. by rewrite Hx.
Qed.

Lemma firstMissing_Some fields body f :
  firstMissing fields body = Some f → firstMissingOf fields body f.
Proof.
  intros E. pose proof (firstMissing_spec fields body) as S.
  by rewrite E in S.
Qed.

Lemma firstMissing_is_Some fields body :
  (∃ f, f ∈ fields ∧ falsy (body !! f))
  ↔ ∃ f, firstMissing fields body = Some f.
Proof.
  split.
  - intros (f & Hin & Hf).
    destruct (firstMissing fields body) as [g|] eqn:E; [by exists g|].
    apply firstMissing_None in E. rewrite Forall_forall in E.
    unfold falsy in Hf. rewrite (E f Hin) in Hf. done.
  - intros (f & (pre & post & -> & _ & Hf)%firstMissing_Some).
    exists f. split; [|done]. set_solver.
Qed.

(** Membership of a name in a list of names that is written out: one
    goal for each name of the list. *)
Ltac elem_of_fields H :=
  repeat (apply elem_of_cons in H as [H|H]; [try discriminate H|]);
  try (by apply elem_of_nil in H).

Lemma firstMissingOf_in fields body f :
  firstMissingOf fields body f → f ∈ fields.
Proof. intros (pre & post & -> & _). set_solver. Qed.

Lemma list_ascii_of_append s t :
  list_ascii_of_string (s +:+ t)
  = list_ascii_of_string s ++ list_ascii_of_string t.
Proof. induction s as [|a s IH]; simpl; [done|]. by rewrite IH. Qed.

Lemma append_inj_r t s s' : s +:+ t = s' +:+ t → s = s'.
Proof.
  intros E%(f_equal list_ascii_of_string).
  rewrite !list_ascii_of_append in E. apply app_inv_tail in E.
  rewrite <- (string_of_list_ascii_of_string s),
          <- (string_of_list_ascii_of_string s').
  by rewrite E.
Qed.

Lemma fieldRequired_inj f g : fieldRequired f = fieldRequired g → f = g.
Proof.
  unfold fieldRequired. intros E. apply String.app_inj in E.
  apply String.app_inj in E. by apply append_inj_r in E.
Qed.

Lemma fieldRequired_not_invalidGameIds f :
  mkResponse 400 (Message (fieldRequired f)) ≠ invalidGameIds.
Proof. unfold invalidGameIds, fieldRequired. simpl. intros [=]. Qed.

Lemma truthy_false_iff v :
  falsy v
  ↔ v = None ∨ v = Some JNull ∨ v = Some (JBool false)
    ∨ v = Some (JStr EmptyString)
    ∨ v = Some (JNum NaN) ∨ ∃ d, v = Some (JNum (Fin (0 # d))).
Proof.
  unfold falsy. split.
  - destruct v as [[| [] | [| |[n d]] | s | |]|]; simpl; intros E;
      try discriminate; eauto 10.
    + apply negb_false_iff, Z.eqb_eq in E. subst n. eauto 10.
    + apply negb_false_iff, bool_decide_eq_true in E. subst s. eauto 10.
  - intros [->|[->|[->|[->|[->|[d ->]]]]]]; done.
Qed.

Section Create.
Context `{Lib}.

Lemma createGame_cases oid body db :
  match firstMissing createGame_requiredFields body with
  | Some f => createGame oid body db
              = (mkResponse 400 (Message (fieldRequired f)), db)
  | None =>
      (∃ g coll,
          createGame oid body db
          = (mkResponse 201 (Game g), mkDb coll (characters db))
          ∧ Games.new oid (body !! "title") (body !! "releaseYear")
              (body !! "platforms") (body !! "genre")
              (body !! "description") (body !! "developer") = Some g
          ∧ Games.save g (games db) = Some coll)
      ∨ createGame oid body db = (internalServerError, db)
  end.
Proof.
  unfold createGame.
  destruct (firstMissing createGame_requiredFields body); [done|].
  destruct (Games.new _ _ _ _ _ _ _) as [g|] eqn:Eg;
    cbn [mbind option_bind]; [|by right].
  destruct (Games.save g (games db)) as [coll|] eqn:Ec;
    cbn [mbind option_bind]; [|by right].
  left. by exists g, coll.
Qed.

Lemma createCharacter_cases oid body db :
  match firstMissing createCharacter_requiredFields body with
  | Some f => createCharacter oid body db
              = (mkResponse 400 (Message (fieldRequired f)), db)
  | None =>
      createCharacter oid body db = (invalidGameIds, db)
      ∨ status (createCharacter oid body db).1 = 201%nat
      ∨ createCharacter oid body db = (internalServerError, db)
  end.
Proof.
  unfold createCharacter.
  destruct (firstMissing createCharacter_requiredFields body); [done|].
  destruct (someInvalidGameId _) as [[]|]; [by left| |by right; right].
  destruct (Characters.new _ _ _ _ _ _ _ _ _) as [c|]; simpl;
    [|by right; right].
  destruct (Characters.save c (characters db)); simpl;
    [by right; left|by right; right].
Qed.

(** C1.  A create request, of a game or of a character, that misses a
    required field is answered 400 with the message
    [The field "<name>" is required] for the first missing field in the
    declared order, and the database is left as it was. *)
Theorem create_rejects_first_missing_field oid body db :
  ((∃ f, f ∈ ["title"; "releaseYear"; "platforms"; "genre";
              "description"; "developer"] ∧ falsy (body !! f)) →
   ∃ f, firstMissingOf createGame_requiredFields body f
        ∧ createGame oid body db
          = (mkResponse 400 (Message (fieldRequired f)), db))
  ∧ ((∃ f, f ∈ ["name"; "description"; "age"; "nationality"; "height";
                "weight"; "occupations"; "games"] ∧ falsy (body !! f)) →
     ∃ f, firstMissingOf createCharacter_requiredFields body f
          ∧ createCharacter oid body db
            = (mkResponse 400 (Message (fieldRequired f)), db)).
Proof.
  split.
  - intros [f E]%(firstMissing_is_Some createGame_requiredFields).
    exists f. split; [by apply firstMissing_Some|].
    pose proof (createGame_cases oid body db) as C. by rewrite E in C.
  - intros [f E]%(firstMissing_is_Some createCharacter_requiredFields).
    exists f. split; [by apply firstMissing_Some|].
    pose proof (createCharacter_cases oid body db) as C. by rewrite E in C.
Qed.

Lemma createGame_rejectedFor oid body db :
  (∃ f, rejectedFor f (createGame oid body db).1)
  ↔ ∃ f, f ∈ createGame_requiredFields ∧ falsy (body !! f).
Proof.
  rewrite firstMissing_is_Some.
  pose proof (createGame_cases oid body db) as C.
  destruct (firstMissing createGame_requiredFields body) as [f|].
  - split; intros _; exists f; [done|]. unfold rejectedFor. by rewrite C.
  - split; [|by intros [? ?]]. unfold rejectedFor.
    intros [f E].
    destruct C as [(g & coll & C & _)|C]; rewrite C in E; discriminate E.
Qed.

Lemma createCharacter_rejectedFor oid body db :
  (∃ f, rejectedFor f (createCharacter oid body db).1)
  ↔ ∃ f, f ∈ createCharacter_requiredFields ∧ falsy (body !! f).
Proof.
  rewrite firstMissing_is_Some.
  pose proof (createCharacter_cases oid body db) as C.
  destruct (firstMissing createCharacter_requiredFields body) as [f|].
  - split; intros _; exists f; [done|]. unfold rejectedFor. by rewrite C.
  - split; [|by intros [? ?]]. unfold rejectedFor.
    intros [f E]. destruct C as [C|[C|C]].
    + rewrite C in E. simpl in E.
      by destruct (fieldRequired_not_invalidGameIds f).
    + rewrite E in C. discriminate C.
    + rewrite C in E. discriminate E.
Qed.
Lemma createGame_rejectedFor_first oid body db f :
  rejectedFor f (createGame oid body db).1 →
  firstMissing createGame_requiredFields body = Some f.
Proof.
  unfold rejectedFor. intros E.
  pose proof (createGame_cases oid body db) as C.
  destruct (firstMissing createGame_requiredFields body) as [g|].
  - rewrite C in E. simpl in E. f_equal. apply fieldRequired_inj.
    congruence.
  - destruct C as [(g & coll & C & _)|C]; rewrite C in E; discriminate E.
Qed.

Lemma createCharacter_rejectedFor_first oid body db f :
  rejectedFor f (createCharacter oid body db).1 →
  firstMissing createCharacter_requiredFields body = Some f.
Proof.
  unfold rejectedFor. intros E.
  pose proof (createCharacter_cases oid body db) as C.
  destruct (firstMissing createCharacter_requiredFields body) as [g|].
  - rewrite C in E. simpl in E. f_equal. apply fieldRequired_inj.
    congruence.
  - destruct C as [C|[C|C]].
    + rewrite C in E. simpl in E.
      by destruct (fieldRequired_not_invalidGameIds f).
    + rewrite E in C. discriminate C.
    + rewrite C in E. discriminate E.
Qed.

(** C2, amended.  A required field of a create request counts as
    missing exactly when its value is falsy, which is: absent, null,
    false, the empty string, zero or NaN.  Such a value is rejected with
    400, so a [releaseYear] of 0 is rejected as missing.  An empty list
    is truthy: the request is not rejected for a field that holds one,
    and a game whose [platforms] is the empty list and whose other
    required fields are there is not answered 400. *)
Theorem missing_is_falsy oid body db :
  ((∃ f, rejectedFor f (createGame oid body db).1)
   ↔ ∃ f, f ∈ createGame_requiredFields ∧ falsy (body !! f))
  ∧ ((∃ f, rejectedFor f (createCharacter oid body db).1)
     ↔ ∃ f, f ∈ createCharacter_requiredFields ∧ falsy (body !! f))
  ∧ (∀ v, falsy v
          ↔ v = None ∨ v = Some JNull ∨ v = Some (JBool false)
            ∨ v = Some (JStr EmptyString)
            ∨ v = Some (JNum NaN) ∨ ∃ d, v = Some (JNum (Fin (0 # d))))
  ∧ (body !! "releaseYear" = Some (JNum (ofZ 0)) →
     ∃ f, rejectedFor f (createGame oid body db).1)
  ∧ (∀ f, body !! f = Some (JArr []) →
          ¬ falsy (body !! f)
          ∧ ¬ rejectedFor f (createGame oid body db).1
          ∧ ¬ rejectedFor f (createCharacter oid body db).1)
  ∧ (body !! "platforms" = Some (JArr []) →
     (∀ f, f ∈ createGame_requiredFields → f ≠ "platforms" →
           ¬ falsy (body !! f)) →
     status (createGame oid body db).1 ≠ 400%nat).
Proof.
  split_and!.
  - apply createGame_rejectedFor.
  - apply createCharacter_rejectedFor.
  - apply truthy_false_iff.
  - intros E. apply createGame_rejectedFor. exists "releaseYear".
    split; [set_solver|]. unfold falsy. by rewrite E.
  - intros f E. unfold falsy. rewrite E. split_and!; [done| |].
    + intros (pre & post & _ & _ & F)%createGame_rejectedFor_first
               %firstMissing_Some.
      unfold falsy in F. by rewrite E in F.
    + intros (pre & post & _ & _ & F)%createCharacter_rejectedFor_first
               %firstMissing_Some.
      unfold falsy in F. by rewrite E in F.
  - intros E Hall.
    assert (firstMissing createGame_requiredFields body = None) as N.
    { apply firstMissing_None, Forall_forall. intros f Hf.
      destruct (decide (f = "platforms")) as [->|Hne].
      - by rewrite E.
      - specialize (Hall f Hf Hne). unfold falsy in Hall.
        by destruct (truthy (body !! f)). }
    pose proof (createGame_cases oid body db) as C. rewrite N in C.
    destruct C as [(g & coll & C & _)|C]; rewrite C; simpl; lia.
Qed.
End Create.

(** C2 as stated fails: a game whose [platforms] is the empty list, the
    other required fields given, passes the required-field loop and is
    not answered 400 (with the example library it is created). *)
Lemma empty_platforms_not_rejected :
  let body := <["platforms" := JArr []]> Example.residentEvil in
  body !! "platforms" = Some (JArr [])
  ∧ firstMissing createGame_requiredFields body = None
  ∧ status (@createGame Example.lib Example.oid1 body Example.empty).1
    ≠ 400%nat.
Proof. vm_compute. split_and!; [done|done|lia]. Qed.

(** * Pagination *)

Lemma num_lt_ofZ a b : num_lt (ofZ a) (ofZ b) = (a <? b).
Proof. unfold num_lt, ofZ. simpl. by rewrite !Z.mul_1_r. Qed.

Lemma num_truthy_ofZ a : num_truthy (ofZ a) = negb (a =? 0).
Proof. done. Qed.

(** Whole numbers of magnitude up to 2^53 are binary64 values: they are
    read, subtracted and multiplied without rounding as long as the
    result stays in that range. *)

Lemma roundHalfEven_exact a d : 0 < d → roundHalfEven (a * d) d = a.
Proof.
  intros Hd. unfold roundHalfEven.
  rewrite Z.mod_mul, Z.div_mul by lia.
  change (2 * 0) with 0. by destruct (Z.compare_spec 0 d); try lia.
Qed.

Lemma lastPlace_whole n :
  0 < n → n ≤ 2 ^ 53 → lastPlace n 1 = Z.log2 n - 52.
Proof.
  intros Hn Hmax. unfold lastPlace. change (Z.log2 1) with 0.
  rewrite Z.sub_0_r.
  pose proof (Z.log2_nonneg n) as Hk.
  destruct (Z.log2_spec n Hn) as [Hlow _].
  rewrite (Z.max_l 0 (- Z.log2 n)), (Z.max_r 0 (Z.log2 n)) by lia.
  rewrite Z.pow_0_r, Z.mul_1_r, Z.mul_1_l.
  destruct (Z.ltb_spec n (2 ^ Z.log2 n)); lia.
Qed.

Lemma Qred_whole z : Qred (z # 1) = z # 1.
Proof. apply Qcanon.Qred_identity. simpl. apply Z.gcd_1_r. Qed.

Lemma round64_whole z : Z.abs z ≤ 2 ^ 53 → round64 (z # 1) = ofZ z.
Proof.
  intros Hz. unfold round64. cbn [Qnum Qden].
  destruct (Z.eqb_spec (Z.abs z) 0) as [E|E].
  { by replace z with 0 by lia. }
  set (n := Z.abs z) in *.
  assert (0 < n) as Hn by lia.
  rewrite (lastPlace_whole n Hn Hz).
  pose proof (Z.log2_nonneg n) as Hk.
  destruct (Z.log2_spec n Hn) as [Hlow Hhigh].
  assert (Z.log2 n ≤ 53) as Hk53.
  { rewrite <- (Z.log2_pow2 53) by lia. by apply Z.log2_le_mono. }
  assert (Z.sgn z * n = z) as Hsgn by lia.
  assert (2 ^ 53 < 2 ^ 1024) as Hbig by (apply Z.pow_lt_mono_r; lia).
  destruct (Z.le_gt_cases (Z.log2 n) 52) as [Hle|Hgt].
  - rewrite (Z.max_r 0 (- (Z.log2 n - 52))),
            (Z.max_l 0 (Z.log2 n - 52)) by lia.
    rewrite Z.pow_0_r, !Z.mul_1_r.
    replace (n * 2 ^ (- (Z.log2 n - 52)))
      with (n * 2 ^ (52 - Z.log2 n) * 1)
      by (rewrite Z.mul_1_r; do 2 f_equal; lia).
    rewrite roundHalfEven_exact by lia.
    assert (0 < 2 ^ (52 - Z.log2 n)) as Hpos by (apply Z.pow_pos_nonneg; lia).
    assert (n * 2 ^ (52 - Z.log2 n) < 2 ^ 53) as Hm.
    { replace 53 with (Z.succ (Z.log2 n) + (52 - Z.log2 n)) by lia.
      rewrite Z.pow_add_r by lia. apply Z.mul_lt_mono_pos_r; lia. }
    destruct (Z.leb_spec (2 ^ 1024) (n * 2 ^ (52 - Z.log2 n))); [lia|].
    unfold ofZ. f_equal. rewrite <- (Qred_whole z). apply Qred_complete.
    unfold Qeq. cbn [Qnum Qden].
    replace (- (Z.log2 n - 52)) with (52 - Z.log2 n) by lia.
    rewrite Z2Pos.id by lia. rewrite <- Hsgn at 2. ring.
  - assert (Z.log2 n = 53) as Ek by lia. rewrite Ek in *.
    assert (n = 2 ^ 53) as En by lia.
    change (Z.max 0 (- (53 - 52))) with 0. change (Z.max 0 (53 - 52)) with 1.
    rewrite En. change (2 ^ 53 * 2 ^ 0) with (2 ^ 52 * (1 * 2 ^ 1)).
    rewrite roundHalfEven_exact by lia.
    change (2 ^ 52 * 2 ^ 1) with (2 ^ 53).
    destruct (Z.leb_spec (2 ^ 1024) (2 ^ 53)); [lia|].
    unfold ofZ. f_equal. rewrite <- (Qred_whole z). apply Qred_complete.
    unfold Qeq. cbn [Qnum Qden]. change (Z.to_pos (2 ^ 0)) with 1%positive.
    rewrite <- Hsgn at 2. rewrite En. ring.
Qed.

Lemma num_sub_ofZ a b :
  Z.abs (a - b) ≤ 2 ^ 53 → num_sub (ofZ a) (ofZ b) = ofZ (a - b).
Proof.
  intros Hab. unfold num_sub, ofZ.
  replace (Qminus (a # 1) (b # 1)) with ((a - b) # 1);
    [by apply round64_whole|].
  unfold Qminus, Qplus, Qopp. cbn [Qnum Qden]. f_equal. lia.
Qed.

Lemma num_mul_ofZ a b :
  Z.abs (a * b) ≤ 2 ^ 53 → num_mul (ofZ a) (ofZ b) = ofZ (a * b).
Proof. intros Hab. unfold num_mul, ofZ. by apply round64_whole. Qed.

Lemma firstDocs_take {D} n (coll : list D) :
  firstDocs n coll = take (Z.to_nat n) coll.
Proof.
  unfold firstDocs. destruct (Z.le_gt_cases n (Z.of_nat (length coll))).
  - by rewrite Z.min_l.
  - rewrite Z.min_r, Nat2Z.id by lia. by rewrite !take_ge by lia.
Qed.

Lemma afterDocs_drop {D} n (coll : list D) :
  afterDocs n coll = drop (Z.to_nat n) coll.
Proof.
  unfold afterDocs. destruct (Z.le_gt_cases n (Z.of_nat (length coll))).
  - by rewrite Z.min_l.
  - rewrite Z.min_r, Nat2Z.id by lia. by rewrite !drop_ge by lia.
Qed.

Lemma toCount_ofZ n :
  0 ≤ n → n < 2 ^ 63 → toCount (ofZ n) = Some n.
Proof.
  intros Hn Hmax. unfold toCount, ofZ. cbn [Qnum Qden].
  rewrite Z.mod_1_r, Z.div_1_r.
  destruct (Z.leb_spec 0 n); [|lia].
  by destruct (Z.ltb_spec n (2 ^ 63)); [|lia].
Qed.

Lemma toCount_skip P L :
  1 ≤ P → 1 ≤ L → P * L ≤ 2 ^ 53 →
  toCount (num_mul (num_sub (ofZ P) (ofZ 1)) (ofZ L))
  = Some ((P - 1) * L).
Proof.
  intros HP HL Hmax.
  assert (2 ^ 53 < 2 ^ 63) as Hbig by (apply Z.pow_lt_mono_r; lia).
  assert (0 ≤ (P - 1) * L ≤ P * L) as Hskip by nia.
  assert (P - 1 ≤ 2 ^ 53) as HP' by nia.
  rewrite num_sub_ofZ, num_mul_ofZ by lia.
  apply toCount_ofZ; lia.
Qed.

Lemma num_or_truthy a d : num_truthy a = true → num_or a d = a.
Proof. unfold num_or. by intros ->. Qed.

Lemma num_or_falsy a d : num_truthy a = false → num_or a d = d.
Proof. unfold num_or. by intros ->. Qed.

Lemma num_or_ofZ v (n d : Z) : 1 ≤ n → v = ofZ n → num_or v (ofZ d) = ofZ n.
Proof.
  intros Hn ->. apply num_or_truthy. rewrite num_truthy_ofZ.
  by destruct (Z.eqb_spec n 0); [lia|].
Qed.

(** The comparison with 1 after the default is put in: only a value that
    parsed to a nonzero number can be below 1. *)
Lemma num_lt_or v (d : Z) :
  1 ≤ d →
  num_lt (num_or (Number v) (ofZ d)) (ofZ 1) = true ↔ belowOne v.
Proof.
  intros Hd. unfold belowOne, num_or.
  destruct (num_truthy (Number v)); [split; [done|by intros [_ ?]]|].
  rewrite num_lt_ofZ. destruct (Z.ltb_spec d 1); [lia|].
  split; [done|by intros [? _]].
Qed.

Lemma length_window {A} (l : list A) (P L : Z) :
  1 ≤ P → 1 ≤ L →
  Z.of_nat (length (take (Z.to_nat L) (drop (Z.to_nat ((P - 1) * L)) l)))
  = Z.min L (Z.max 0 (Z.of_nat (length l) - (P - 1) * L)).
Proof. intros HP HL. rewrite length_take, length_drop. nia. Qed.

(** The two list handlers on whole numbers of at least 1. *)
Lemma getAllGames_whole query db (P L : Z) :
  1 ≤ P → 1 ≤ L → P * L ≤ 2 ^ 53 →
  num_or (Number (page query)) (ofZ 1) = ofZ P →
  num_or (Number (limit query)) (ofZ 10) = ofZ L →
  getAllGames query db
  = (mkResponse 200
       (GamesPage (ofZ P) (ofZ L) (length (games db))
          (populateMainCharacters db
             <$> take (Z.to_nat L)
                   (drop (Z.to_nat ((P - 1) * L)) (games db)))), db).
Proof.
  intros HP HL Hmax Ep El. unfold getAllGames. rewrite Ep, El, !num_lt_ofZ.
  destruct (Z.ltb_spec P 1); [lia|]. destruct (Z.ltb_spec L 1); [lia|].
  assert (2 ^ 53 < 2 ^ 63) as Hbig by (apply Z.pow_lt_mono_r; lia).
  assert (L ≤ P * L) as HL' by nia.
  unfold findSkipLimit. rewrite toCount_skip, toCount_ofZ by lia.
  cbn [mbind option_bind orb].
  destruct (Z.eqb_spec L 0); [lia|].
  by rewrite afterDocs_drop, firstDocs_take.
Qed.

Lemma getAllCharacters_whole query db (P L : Z) :
  1 ≤ P → 1 ≤ L → P * L ≤ 2 ^ 53 →
  num_or (Number (page query)) (ofZ 1) = ofZ P →
  num_or (Number (limit query)) (ofZ 10) = ofZ L →
  getAllCharacters query db
  = (mkResponse 200
       (CharactersPage (ofZ P) (ofZ L) (length (characters db))
          (populateGameTitles db
             <$> take (Z.to_nat L)
                   (drop (Z.to_nat ((P - 1) * L)) (characters db)))), db).
Proof.
  intros HP HL Hmax Ep El. unfold getAllCharacters.
  rewrite Ep, El, !num_lt_ofZ.
  destruct (Z.ltb_spec P 1); [lia|]. destruct (Z.ltb_spec L 1); [lia|].
  assert (2 ^ 53 < 2 ^ 63) as Hbig by (apply Z.pow_lt_mono_r; lia).
  assert (L ≤ P * L) as HL' by nia.
  unfold findSkipLimit. rewrite toCount_skip, toCount_ofZ by lia.
  cbn [mbind option_bind orb].
  destruct (Z.eqb_spec L 0); [lia|].
  by rewrite afterDocs_drop, firstDocs_take.
Qed.

(** C4.  For a collection of [N] documents and a list request whose page
    is [P >= 1] and whose limit is [L >= 1], the response is 200 with the
    documents of the collection in natural order from offset [(P-1)*L],
    [min(L, max(0, N-(P-1)*L))] of them, and the total is [N].  The page
    and the limit are binary64 numbers, and so is the offset the handler
    computes from them: the statement is for [P * L <= 2^53], the range
    in which that arithmetic is exact. *)
Theorem list_returns_the_requested_window query db (P L : Z) :
  1 ≤ P → 1 ≤ L → P * L ≤ 2 ^ 53 →
  Number (page query) = ofZ P → Number (limit query) = ofZ L →
  (∃ found,
      found = take (Z.to_nat L) (drop (Z.to_nat ((P - 1) * L)) (games db))
      ∧ getAllGames query db
        = (mkResponse 200
             (GamesPage (ofZ P) (ofZ L) (length (games db))
                (populateMainCharacters db <$> found)), db)
      ∧ Z.of_nat (length (populateMainCharacters db <$> found))
        = Z.min L (Z.max 0 (Z.of_nat (length (games db)) - (P - 1) * L)))
  ∧ (∃ found,
        found
        = take (Z.to_nat L) (drop (Z.to_nat ((P - 1) * L)) (characters db))
        ∧ getAllCharacters query db
          = (mkResponse 200
               (CharactersPage (ofZ P) (ofZ L) (length (characters db))
                  (populateGameTitles db <$> found)), db)
        ∧ Z.of_nat (length (populateGameTitles db <$> found))
          = Z.min L
              (Z.max 0 (Z.of_nat (length (characters db)) - (P - 1) * L))).
Proof.
  intros HP HL Hmax Ep El.
  pose proof (num_or_ofZ _ P 1 HP Ep) as Ep'.
  pose proof (num_or_ofZ _ L 10 HL El) as El'.
  split; eexists; (split; [reflexivity|]); split.
  - by apply getAllGames_whole.
  - rewrite length_fmap. by apply length_window.
  - by apply getAllCharacters_whole.
  - rewrite length_fmap. by apply length_window.
Qed.

Lemma effective_num_or v d n :
  1 ≤ d → effective v d n → 1 ≤ n ∧ num_or (Number v) (ofZ d) = ofZ n.
Proof.
  intros Hd [[Hv ->]|[Hn Hv]].
  - split; [done|]. by apply num_or_falsy.
  - split; [done|]. by apply num_or_ofZ.
Qed.

Lemma defaulted_iff v :
  defaulted v ↔ Number v = NaN ∨ ∃ d, Number v = Fin (0 # d).
Proof.
  unfold defaulted. destruct (Number v) as [| |[n d]]; simpl.
  - split; [by left|done].
  - split; [done|]. by intros [|[? ?]].
  - rewrite negb_false_iff, Z.eqb_eq. split.
    + intros ->. right. by exists d.
    + intros [|[? ?]]; by simplify_eq.
Qed.

Lemma belowOne_iff v :
  belowOne v
  ↔ Number v = Inf true
    ∨ ∃ q, Number v = Fin q ∧ ¬ (q == 0)%Q ∧ (q < 1)%Q.
Proof.
  unfold belowOne. destruct (Number v) as [|[]|q]; simpl.
  - split; [by intros [? _]|]. by intros [|(? & ? & _)].
  - split; [by left|done].
  - split; [by intros [_ ?]|]. by intros [|(? & ? & _)].
  - unfold Qeq, Qlt. simpl. rewrite negb_true_iff, Z.eqb_neq, Z.ltb_lt.
    split.
    + intros [? ?]. right. exists q. split_and!; [done|lia|lia].
    + intros [|(q' & [= <-] & ? & ?)]; [done|]. lia.
Qed.

Lemma getAllGames_400 query db :
  status (getAllGames query db).1 = 400%nat
  ↔ belowOne (page query) ∨ belowOne (limit query).
Proof.
  rewrite <- (num_lt_or (page query) 1), <- (num_lt_or (limit query) 10)
    by lia.
  unfold getAllGames.
  destruct (num_lt (num_or (Number (page query)) (ofZ 1)) (ofZ 1));
    [by split; [left|]|].
  destruct (num_lt (num_or (Number (limit query)) (ofZ 10)) (ofZ 1));
    [by split; [right|]|].
  simpl. destruct (findSkipLimit _ _ _); simpl;
    (split; [discriminate|by intros [|]]).
Qed.

Lemma getAllCharacters_400 query db :
  status (getAllCharacters query db).1 = 400%nat
  ↔ belowOne (page query) ∨ belowOne (limit query).
Proof.
  rewrite <- (num_lt_or (page query) 1), <- (num_lt_or (limit query) 10)
    by lia.
  unfold getAllCharacters.
  destruct (num_lt (num_or (Number (page query)) (ofZ 1)) (ofZ 1));
    [by split; [left|]|].
  destruct (num_lt (num_or (Number (limit query)) (ofZ 10)) (ofZ 1));
    [by split; [right|]|].
  simpl. destruct (findSkipLimit _ _ _); simpl;
    (split; [discriminate|by intros [|]]).
Qed.

(** C3 at the failing input.  A page of 0, and a limit of 0, is not
    rejected: the value is replaced by the default and the answer is 200
    with the first ten documents, whatever the collection holds.  A
    negative page or limit is answered 400. *)
Theorem zero_page_or_limit_is_not_rejected db :
  getAllGames (mkQuery (QString "0") QUndefined) db
  = (mkResponse 200
       (GamesPage (ofZ 1) (ofZ 10) (length (games db))
          (populateMainCharacters db <$> take 10 (games db))), db)
  ∧ getAllGames (mkQuery QUndefined (QString "0")) db
    = (mkResponse 200
         (GamesPage (ofZ 1) (ofZ 10) (length (games db))
            (populateMainCharacters db <$> take 10 (games db))), db)
  ∧ getAllCharacters (mkQuery (QString "0") QUndefined) db
    = (mkResponse 200
         (CharactersPage (ofZ 1) (ofZ 10) (length (characters db))
            (populateGameTitles db <$> take 10 (characters db))), db)
  ∧ getAllCharacters (mkQuery QUndefined (QString "0")) db
    = (mkResponse 200
         (CharactersPage (ofZ 1) (ofZ 10) (length (characters db))
            (populateGameTitles db <$> take 10 (characters db))), db)
  ∧ getAllGames (mkQuery (QString "-1") QUndefined) db = (badPagination, db)
  ∧ getAllGames (mkQuery QUndefined (QString "-1")) db = (badPagination, db)
  ∧ getAllCharacters (mkQuery (QString "-1") QUndefined) db
    = (badPagination, db)
  ∧ getAllCharacters (mkQuery QUndefined (QString "-1")) db
    = (badPagination, db).
Proof.
  split_and!; try reflexivity.
  - by apply (getAllGames_whole _ db 1 10).
  - by apply (getAllGames_whole _ db 1 10).
  - by apply (getAllCharacters_whole _ db 1 10).
  - by apply (getAllCharacters_whole _ db 1 10).
Qed.

(** C10.  A page or limit that does not parse to a nonzero number (a
    string that is no number, the string 0, an empty or absent value) is
    replaced by its default, page 1 and limit 10, and the request is
    answered 200; the answer is 400 exactly when the page or the limit
    parses to a nonzero number below 1, a negative one or a fraction.
    The number a value parses to is the binary64 number JavaScript reads:
    a numeral that underflows reads 0 and is defaulted, and one that
    rounds to 1 is not below 1.  The 200 answer is stated for an
    effective page [P] and limit [L] with [P * L <= 2^53]. *)
Theorem list_defaults_and_rejections query db :
  (defaulted QUndefined ∧ defaulted (QString EmptyString)
   ∧ defaulted (QString "0") ∧ defaulted (QString "abc"))
  ∧ (defaulted (QString "1e-400")
     ∧ ¬ belowOne (QString "0.99999999999999999999")
     ∧ Number (QString "0.99999999999999999999") = ofZ 1)
  ∧ (∀ v, defaulted v ↔ Number v = NaN ∨ ∃ d, Number v = Fin (0 # d))
  ∧ (∀ v, belowOne v
          ↔ Number v = Inf true
            ∨ ∃ q, Number v = Fin q ∧ ¬ (q == 0)%Q ∧ (q < 1)%Q)
  ∧ (belowOne (QString "-1") ∧ belowOne (QString "0.5"))
  ∧ (status (getAllGames query db).1 = 400%nat
     ↔ belowOne (page query) ∨ belowOne (limit query))
  ∧ (status (getAllCharacters query db).1 = 400%nat
     ↔ belowOne (page query) ∨ belowOne (limit query))
  ∧ (∀ P L, effective (page query) 1 P → effective (limit query) 10 L →
       P * L ≤ 2 ^ 53 →
       getAllGames query db
       = (mkResponse 200
            (GamesPage (ofZ P) (ofZ L) (length (games db))
               (populateMainCharacters db
                  <$> take (Z.to_nat L)
                        (drop (Z.to_nat ((P - 1) * L)) (games db)))), db)
       ∧ getAllCharacters query db
         = (mkResponse 200
              (CharactersPage (ofZ P) (ofZ L) (length (characters db))
                 (populateGameTitles db
                    <$> take (Z.to_nat L)
                          (drop (Z.to_nat ((P - 1) * L)) (characters db)))),
            db)).
Proof.
  split_and!; try done.
  - unfold belowOne. vm_compute. by intros [_ ?].
  - apply defaulted_iff.
  - apply belowOne_iff.
  - apply getAllGames_400.
  - apply getAllCharacters_400.
  - intros P L [HP Ep]%effective_num_or [HL El]%effective_num_or Hmax;
      try lia.
    split; [by apply getAllGames_whole|by apply getAllCharacters_whole].
Qed.

(** * Documents by [_id] *)

Section Locate.
Context {D : Type} (key : D → string).

Lemma locate_Some id coll pre d post :
  locate key id coll = Some (pre, d, post) →
  coll = pre ++ d :: post ∧ key d = id ∧ Forall (λ x, key x ≠ id) pre.
Proof.
  revert pre. induction coll as [|x coll IH]; intros pre; simpl; [done|].
  case_bool_decide as Hx.
  - intros [= <- <- <-]. by split_and!.
  - destruct (locate key id coll) as [[[pre' d'] post']|]; simpl; [|done].
    intros [= <- <- <-]. destruct (IH pre' eq_refl) as (-> & ? & ?).
    split_and!; [done|done|]. by constructor.
Qed.

Lemma locate_fresh id pre d post :
  Forall (λ x, key x ≠ id) pre → key d = id →
  locate key id (pre ++ d :: post) = Some (pre, d, post).
Proof.
  intros Hpre Hd. induction Hpre as [|x pre Hx _ IH]; simpl.
  - by rewrite bool_decide_eq_true_2.
  - rewrite bool_decide_eq_false_2 by done. by rewrite IH.
Qed.

Lemma lookupId_Some id coll d :
  lookupId key id coll = Some d →
  ∃ pre post, locate key id coll = Some (pre, d, post).
Proof.
  unfold lookupId.
  destruct (locate key id coll) as [[[pre d'] post]|]; simpl; [|done].
  intros [= ->]. by exists pre, post.
Qed.

Lemma lookupId_fresh id pre d post :
  Forall (λ x, key x ≠ id) pre → key d = id →
  lookupId key id (pre ++ d :: post) = Some d.
Proof. intros ??. unfold lookupId. by rewrite locate_fresh. Qed.

Lemma lookupId_cons id x coll :
  lookupId key id (x :: coll)
  = if bool_decide (key x = id) then Some x else lookupId key id coll.
Proof.
  unfold lookupId. simpl. case_bool_decide; [done|].
  by destruct (locate key id coll) as [[[??]?]|].
Qed.

(** Replacing a document by one of the same [_id] leaves every other
    lookup as it was. *)
Lemma lookupId_other id pre d d' post :
  key d = key d' → id ≠ key d →
  lookupId key id (pre ++ d' :: post) = lookupId key id (pre ++ d :: post).
Proof.
  intros Hk Hne. induction pre as [|x pre IH]; simpl.
  - rewrite !lookupId_cons, !bool_decide_eq_false_2 by congruence. done.
  - rewrite !lookupId_cons. by rewrite IH.
Qed.
End Locate.

Lemma firstMissing_app a b body :
  firstMissing (a ++ b) body
  = match firstMissing a body with
    | Some f => Some f
    | None => firstMissing b body
    end.
Proof.
  induction a as [|x a IH]; simpl; [done|].
  by destruct (truthy (body !! x)).
Qed.

Lemma firstMissing_ext fields body body' :
  (∀ f, f ∈ fields → body' !! f = body !! f) →
  firstMissing fields body' = firstMissing fields body.
Proof.
  induction fields as [|x fields IH]; intros E; simpl; [done|].
  rewrite (E x) by set_solver. rewrite IH; [done|].
  intros f Hf. apply E. set_solver.
Qed.

Lemma pickTruthy_falsy fields body f :
  falsy (body !! f) → pickTruthy fields body !! f = None.
Proof.
  intros Hf. unfold pickTruthy.
  induction fields as [|x fields IH]; cbn [foldr]; [done|].
  destruct (body !! x) as [v|] eqn:Ex; [|done].
  destruct (truthy (Some v)) eqn:Tv; [|done].
  rewrite lookup_insert_ne; [done|].
  intros ->. unfold falsy in Hf. congruence.
Qed.

Lemma pickTruthy_empty fields body :
  (∀ f, f ∈ fields → falsy (body !! f)) → pickTruthy fields body = ∅.
Proof.
  unfold pickTruthy.
  induction fields as [|x fields IH]; intros E; cbn [foldr]; [done|].
  rewrite IH by (intros f Hf; apply E; set_solver).
  assert (falsy (body !! x)) as Hx by (apply E; set_solver).
  unfold falsy in Hx. destruct (body !! x) as [v|]; [|done]. by rewrite Hx.
Qed.

(** * The games collection *)

Section GamesCollection.
Context `{Lib}.

Lemma castPath_None {A} (cast : JsValue → option A) o :
  castPath cast None = Some o → o = None.
Proof. by intros [= <-]. Qed.

(** An update sets no path that it does not hold, and never [_id],
    [enemies] or [locations]. *)
Lemma castUpdate_frame update set old :
  Games.castUpdate update = Some set →
  Games._id (set old) = Games._id old
  ∧ Games.enemies (set old) = Games.enemies old
  ∧ Games.locations (set old) = Games.locations old
  ∧ (update !! "title" = None → Games.title (set old) = Games.title old)
  ∧ (update !! "releaseYear" = None →
     Games.releaseYear (set old) = Games.releaseYear old)
  ∧ (update !! "platforms" = None →
     Games.platforms (set old) = Games.platforms old)
  ∧ (update !! "genre" = None → Games.genre (set old) = Games.genre old)
  ∧ (update !! "description" = None →
     Games.description (set old) = Games.description old)
  ∧ (update !! "developer" = None →
     Games.developer (set old) = Games.developer old)
  ∧ (update !! "mainCharacters" = None →
     Games.mainCharacters (set old) = Games.mainCharacters old).
Proof.
  unfold Games.castUpdate. intros E.
  destruct (castPath castString (update !! "title")) as [t|] eqn:Et;
    [|done].
  destruct (castPath castNumber (update !! "releaseYear")) as [y|] eqn:Ey;
    [|done].
  destruct (castPath (castArray castString) (update !! "platforms"))
    as [p|] eqn:Ep; [|done].
  destruct (castPath castString (update !! "genre")) as [g|] eqn:Eg;
    [|done].
  destruct (castPath castString (update !! "description")) as [d|] eqn:Ed;
    [|done].
  destruct (castPath castString (update !! "developer")) as [v|] eqn:Ev;
    [|done].
  destruct (castPath (castArray castObjectId) (update !! "mainCharacters"))
    as [m|] eqn:Em; [|done].
  injection E as <-. simpl.
  split_and!; try done; intros N; rewrite N in *;
    match goal with
    | E : castPath _ None = Some _ |- _ => apply castPath_None in E as ->
    end; done.
Qed.

Lemma castUpdate_empty :
  ∃ set, Games.castUpdate ∅ = Some set ∧ ∀ old, set old = old.
Proof. eexists. split; [reflexivity|]. by intros []. Qed.

Lemma new_fields oid t y p g d v doc :
  Games.new oid t y p g d v = Some doc →
  Games._id doc = oid ∧ Games.mainCharacters doc = []
  ∧ Games.enemies doc = [] ∧ Games.locations doc = [].
Proof.
  unfold Games.new. intros E.
  destruct (required castString t ≫= requiredString); [|done].
  destruct (required castNumber y); [|done].
  destruct (castArray castString (default (JArr []) p)); [|done].
  destruct (required castString g ≫= requiredString); [|done].
  destruct (required castString d ≫= requiredString); [|done].
  destruct (required castString v ≫= requiredString); [|done].
  by injection E as <-.
Qed.

Lemma save_Some doc coll coll' :
  Games.save doc coll = Some coll' →
  coll' = coll ++ [doc]
  ∧ Forall (λ x, Games._id x ≠ Games._id doc) coll.
Proof.
  unfold Games.save. case_bool_decide as Hid; [done|]. simpl.
  destruct (bool_decide _); [done|]. intros [= <-]. split; [done|].
  apply Forall_forall. intros x Hx E. apply Hid.
  rewrite <- E. by apply list_elem_of_fmap_2.
Qed.
End GamesCollection.

(** * Games by id *)

Section GamesById.
Context `{Lib}.

(** C5.  A PATCH on the well-formed id of a stored game leaves every
    field whose value in the body is absent or falsy as it was, changes
    nothing but the seven fields of that game, and when none of the
    seven is truthy answers 200 with the game unchanged. *)
Theorem patch_changes_only_truthy_fields id oid body db old :
  isValid (JStr id) = true →
  castObjectId (JStr id) = Some oid →
  lookupId Games._id oid (games db) = Some old →
  ∃ new,
    lookupId Games._id oid (games (updateGameByIdPatch id body db).2)
    = Some new
    ∧ ((updateGameByIdPatch id body db).1 = mkResponse 200 (Game new)
       ∨ (updateGameByIdPatch id body db = (internalServerError, db)
          ∧ new = old))
    ∧ (falsy (body !! "title") → Games.title new = Games.title old)
    ∧ (falsy (body !! "releaseYear") →
       Games.releaseYear new = Games.releaseYear old)
    ∧ (falsy (body !! "platforms") →
       Games.platforms new = Games.platforms old)
    ∧ (falsy (body !! "genre") → Games.genre new = Games.genre old)
    ∧ (falsy (body !! "description") →
       Games.description new = Games.description old)
    ∧ (falsy (body !! "developer") →
       Games.developer new = Games.developer old)
    ∧ (falsy (body !! "mainCharacters") →
       Games.mainCharacters new = Games.mainCharacters old)
    ∧ Games._id new = Games._id old
    ∧ Games.enemies new = Games.enemies old
    ∧ Games.locations new = Games.locations old
    ∧ (∀ other, other ≠ oid →
         lookupId Games._id other (games (updateGameByIdPatch id body db).2)
         = lookupId Games._id other (games db))
    ∧ characters (updateGameByIdPatch id body db).2 = characters db
    ∧ ((∀ f, f ∈ ["title"; "releaseYear"; "platforms"; "genre";
                   "description"; "developer"; "mainCharacters"] →
             falsy (body !! f)) →
       updateGameByIdPatch id body db = (mkResponse 200 (Game old), db)).
Proof.
  intros Hvalid Hcast Hold.
  destruct (lookupId_Some _ _ _ _ Hold) as (pre & post & Hloc).
  destruct (locate_Some _ _ _ _ _ _ Hloc) as (Hcoll & Hkey & Hpre).
  unfold updateGameByIdPatch, Games.findByIdAndUpdate.
  rewrite Hvalid, Hcast. cbn [negb mbind option_bind].
  set (updateData := pickTruthy updateGameById_requiredFields body).
  destruct (Games.castUpdate updateData) as [set|] eqn:Eset;
    cbn [mbind option_bind].
  - rewrite Hloc.
    destruct (castUpdate_frame updateData set old Eset)
      as (Fid & Fe & Fl & Ft & Fy & Fp & Fg & Fd & Fv & Fm).
    assert (∀ f, falsy (body !! f) → updateData !! f = None) as Hdata
      by (intros f; apply pickTruthy_falsy).
    assert ((∀ f, f ∈ updateGameById_requiredFields → falsy (body !! f))
            → set old = old) as Hnoop.
    { intros Hall. subst updateData.
      rewrite (pickTruthy_empty _ _ Hall) in Eset.
      destruct castUpdate_empty as (set' & E' & Hset').
      rewrite E' in Eset. injection Eset as <-. apply Hset'. }
    destruct (bool_decide (Games.title (set old) ≠ Games.title old)
              && bool_decide
                   (Games.title (set old) ∈ Games.title <$> pre ++ post))
      eqn:Edup.
    + exists old. cbn [fst snd]. split_and!; try done.
      * by right.
      * intros Hall. rewrite (Hnoop Hall) in Edup.
        by rewrite bool_decide_eq_false_2 in Edup by (by intros ?).
    + exists (set old). cbn [fst snd games characters].
      split_and!; try done; eauto.
      * apply lookupId_fresh; [done|congruence].
      * intros other Hne. rewrite Hcoll.
        apply lookupId_other; congruence.
      * intros Hall. rewrite (Hnoop Hall), <- Hcoll. by destruct db.
  - exists old. cbn [fst snd]. split_and!; try done.
    + by right.
    + intros Hall. subst updateData.
      rewrite (pickTruthy_empty updateGameById_requiredFields _ Hall)
        in Eset.
      destruct castUpdate_empty as (set' & E' & _). congruence.
Qed.
End GamesById.

(** * Required fields of PUT, malformed ids, and what a create stores *)

Section GamesRoutes.
Context `{Lib}.

(** C6, amended.  PUT validates [mainCharacters] after the six fields
    that create validates.  A PUT on a well-formed id whose body has no
    truthy [mainCharacters] is answered 400 for the first missing
    field, which is [mainCharacters] exactly when the six other fields
    are there; a create is never rejected for [mainCharacters]. *)
Theorem put_requires_mainCharacters id body db :
  updateGameById_requiredFields
  = createGame_requiredFields ++ ["mainCharacters"]
  ∧ (isValid (JStr id) = true → falsy (body !! "mainCharacters") →
     ∃ f, firstMissingOf updateGameById_requiredFields body f
          ∧ updateGameById id body db
            = (mkResponse 400 (Message (fieldRequired f)), db)
          ∧ (f = "mainCharacters"
             ↔ ∀ g, g ∈ createGame_requiredFields → ¬ falsy (body !! g)))
  ∧ (∀ oid, ¬ rejectedFor "mainCharacters" (createGame oid body db).1).
Proof.
  split_and!; [done| |].
  - intros Hvalid Hmain. unfold updateGameById. rewrite Hvalid. simpl negb.
    cbv iota.
    change updateGameById_requiredFields
      with (createGame_requiredFields ++ ["mainCharacters"]).
    pose proof (firstMissing_app createGame_requiredFields
                  ["mainCharacters"] body) as Happ.
    pose proof (firstMissing_spec createGame_requiredFields body) as S.
    destruct (firstMissing createGame_requiredFields body) as [g|] eqn:Eg.
    + exists g. rewrite Happ. split_and!.
      * by apply firstMissing_Some.
      * done.
      * apply firstMissingOf_in in S as Hin. split.
        -- intros ->. elem_of_fields Hin.
        -- intros Hall. destruct S as (? & ? & _ & _ & Hg).
           by destruct (Hall g Hin).
    + cbn [firstMissing] in Happ. unfold falsy in Hmain.
      rewrite Hmain in Happ.
      exists "mainCharacters". rewrite Happ. split_and!.
      * by apply firstMissing_Some.
      * done.
      * split; [|done]. intros _ g Hg. rewrite Forall_forall in S.
        unfold falsy. by rewrite (S g Hg).
  - intros oid Hrej%createGame_rejectedFor_first%firstMissing_Some.
    apply firstMissingOf_in in Hrej. elem_of_fields Hrej.
Qed.

(** C7, amended.  A GET, PUT, PATCH or DELETE whose path id is not a
    well-formed identifier is answered 400 [Invalid GameID format],
    whatever the collection holds.  A character create whose eight
    required fields are there and whose [games] is a list with an
    element that is not a well-formed identifier is answered 400
    [Invalid game ID(s) in the 'games' field]. *)
Theorem malformed_ids_are_rejected id oid body db :
  (isValid (JStr id) = false →
   getGameById id db = (invalidGameId, db)
   ∧ updateGameById id body db = (invalidGameId, db)
   ∧ updateGameByIdPatch id body db = (invalidGameId, db)
   ∧ deleteGameById id db = (invalidGameId, db)
   ∧ invalidGameId = mkResponse 400 (Message "Invalid GameID format"))
  ∧ (∀ ids,
       (∀ f, f ∈ createCharacter_requiredFields → ¬ falsy (body !! f)) →
       body !! "games" = Some (JArr ids) →
       (∃ x, x ∈ ids ∧ isValid x = false) →
       createCharacter oid body db
       = (mkResponse 400
            (Message "Invalid game ID(s) in the 'games' field"), db)).
Proof.
  split.
  - intros Hid.
    unfold getGameById, updateGameById, updateGameByIdPatch, deleteGameById.
    by rewrite Hid.
  - intros ids Hall Hgames (x & Hx & Hbad).
    assert (firstMissing createCharacter_requiredFields body = None) as N.
    { apply firstMissing_None, Forall_forall. intros f Hf.
      specialize (Hall f Hf). unfold falsy in Hall.
      by destruct (truthy (body !! f)). }
    unfold createCharacter. rewrite N, Hgames. simpl.
    assert (forallb isValid ids = false) as ->; [|done].
    apply not_true_is_false. intros Hforall.
    rewrite forallb_forall in Hforall.
    apply list_elem_of_In in Hx. rewrite (Hforall x Hx) in Hbad. done.
Qed.

(** C8.  When a create is answered 201, a get-by-id on the identifier
    of the game returned, against the database the create left, is
    answered 200 with that same game.  The identifier generated for a
    document is a well-formed one, in the form it is stored in. *)
Theorem created_game_is_found oid body db r db' :
  isValid (JStr oid) = true →
  castObjectId (JStr oid) = Some oid →
  createGame oid body db = (r, db') →
  status r = 201%nat →
  ∃ g, r = mkResponse 201 (Game g)
       ∧ Games._id g = oid
       ∧ getGameById (Games._id g) db' = (mkResponse 200 (Game g), db').
Proof.
  intros Hvalid Hcast Hcreate Hstatus.
  pose proof (createGame_cases oid body db) as C.
  destruct (firstMissing createGame_requiredFields body).
  { rewrite C in Hcreate. by simplify_eq. }
  destruct C as [(g & coll & C & Hnew & Hsave)|C];
    rewrite C in Hcreate; [|by simplify_eq].
  injection Hcreate as <- <-. clear Hstatus C.
  apply new_fields in Hnew as (Hid & _).
  apply save_Some in Hsave as (-> & Hfresh).
  exists g. split_and!; [done..|].
  unfold getGameById, Games.findById. rewrite Hid, Hvalid, Hcast.
  cbn [negb mbind option_bind games]. rewrite Hid in Hfresh.
  by rewrite lookupId_fresh.
Qed.

(** C9.  A create stores and returns nothing of the body but its six
    validated fields: bodies that agree on the six are answered alike,
    and the game created has no main characters, no enemies and no
    locations, whatever the body held for them. *)
Theorem create_keeps_only_the_six_fields oid body db :
  (∀ body',
      (∀ f, f ∈ ["title"; "releaseYear"; "platforms"; "genre";
                 "description"; "developer"] → body' !! f = body !! f) →
      createGame oid body' db = createGame oid body db)
  ∧ (∀ r db', createGame oid body db = (r, db') → status r = 201%nat →
       ∃ g, r = mkResponse 201 (Game g)
            ∧ Games.mainCharacters g = []
            ∧ Games.enemies g = []
            ∧ Games.locations g = []
            ∧ games db' = games db ++ [g]
            ∧ characters db' = characters db).
Proof.
  split.
  - intros body' E. unfold createGame.
    rewrite (firstMissing_ext createGame_requiredFields body body') by done.
    rewrite !E by set_solver. done.
  - intros r db' Hcreate Hstatus.
    pose proof (createGame_cases oid body db) as C.
    destruct (firstMissing createGame_requiredFields body).
    { rewrite C in Hcreate. by simplify_eq. }
    destruct C as [(g & coll & C & Hnew & Hsave)|C];
      rewrite C in Hcreate; [|by simplify_eq].
    injection Hcreate as <- <-.
    apply new_fields in Hnew as (_ & ? & ? & ?).
    apply save_Some in Hsave as (-> & _).
    by exists g.
Qed.
End GamesRoutes.

(** * The handlers on the example library *)

Example Number_examples :
  Number (QString "12") = ofZ 12
  ∧ Number (QString " 12 ") = ofZ 12
  ∧ Number (QString "1.50e1") = ofZ 15
  ∧ Number (QString "0x1f") = ofZ 31
  ∧ Number (QString "0.5") = Fin (1 # 2)
  ∧ Number (QString "-3") = Fin (-3 # 1)
  ∧ Number (QString "-Infinity") = Inf true
  ∧ Number (QString "12px") = NaN
  ∧ Number (QString ".") = NaN
  ∧ Number (QArray [QString "5"]) = ofZ 5
  ∧ Number (QArray [QString "1"; QString "2"]) = NaN
  ∧ Number QObject = NaN.
Proof. by split_and!. Qed.

(** Numerals that are not binary64 numbers are read rounded to the
    nearest one, ties to the even one; beyond the range they are read as
    0 or as Infinity.  The differences and products of the handlers are
    rounded the same way. *)
Example Number_rounds_to_binary64 :
  Number (QString "9007199254740993") = ofZ 9007199254740992
  ∧ Number (QString "9007199254740995") = ofZ 9007199254740996
  ∧ Number (QString "0.1")
    = Fin (3602879701896397 # 36028797018963968)
  ∧ Number (QString "0.99999999999999999999") = ofZ 1
  ∧ Number (QString "1e-400") = ofZ 0
  ∧ Number (QString "1e400") = Inf false
  ∧ Number (QString "-1e400") = Inf true
  ∧ Number (QString "1e19") = ofZ (10 ^ 19)
  ∧ num_sub (ofZ (2 ^ 53 + 2)) (ofZ 1) = ofZ (2 ^ 53)
  ∧ num_mul (ofZ (2 ^ 53 + 2)) (ofZ 3) = ofZ (3 * 2 ^ 53 + 8)
  ∧ num_mul (num_sub (Inf false) (ofZ 1)) (ofZ 0) = NaN.
Proof. vm_compute. split_and!; reflexivity. Qed.

(** A page or a limit beyond what the store reads as a count is answered
    500; a page beyond 2^53 is echoed as the number it was read as. *)
Example list_of_a_huge_page :
  getAllGames (mkQuery (QString "1e19") QUndefined) Example.library
  = (internalServerError, Example.library)
  ∧ getAllGames (mkQuery QUndefined (QString "1e400")) Example.library
    = (internalServerError, Example.library)
  ∧ getAllGames (mkQuery (QString "9007199254740993") (QString "1"))
      Example.library
    = (mkResponse 200 (GamesPage (ofZ 9007199254740992) (ofZ 1) 4 []),
       Example.library)
  ∧ getAllCharacters (mkQuery (QString "9007199254740993") (QString "1"))
      Example.library
    = (mkResponse 200 (CharactersPage (ofZ 9007199254740992) (ofZ 1) 1 []),
       Example.library).
Proof. vm_compute. split_and!; reflexivity. Qed.

Example list_second_page :
  getAllGames (mkQuery (QString "2") (QString "3")) Example.library
  = (mkResponse 200
       (GamesPage (ofZ 2) (ofZ 3) 4
          [Games.mkGames Example.oid4 "Resident Evil Code: Veronica"
             (ofZ 2000) ["PlayStation"] "Horror" "Survival" [] [] []
             "Capcom"]),
     Example.library).
Proof. reflexivity. Qed.

Example list_populates_names :
  ∃ rest,
    (getAllGames (mkQuery QUndefined QUndefined) Example.library).1
    = mkResponse 200
        (GamesPage (ofZ 1) (ofZ 10) 4
           (Games.mkGames Example.oid1 "Resident Evil" (ofZ 1996)
              ["PlayStation"] "Horror" "Survival"
              [{| Characters.ref := Example.oid5;
                  Characters.ref_name := "Jill Valentine" |}] [] []
              "Capcom" :: rest)).
Proof. eexists. reflexivity. Qed.

Lemma create_rejects_first_missing_field_witness :
  let body : gmap string JsValue := {[ "title" := JStr "Resident Evil" ]} in
  (∃ f, f ∈ ["title"; "releaseYear"; "platforms"; "genre"; "description";
             "developer"] ∧ falsy (body !! f))
  ∧ (∃ f, firstMissingOf createGame_requiredFields body f
          ∧ @createGame Example.lib Example.oid1 body Example.library
            = (mkResponse 400 (Message (fieldRequired f)), Example.library))
  ∧ (∃ f, f ∈ ["name"; "description"; "age"; "nationality"; "height";
               "weight"; "occupations"; "games"] ∧ falsy (body !! f))
  ∧ (∃ f, firstMissingOf createCharacter_requiredFields body f
          ∧ @createCharacter Example.lib Example.oid1 body Example.library
            = (mkResponse 400 (Message (fieldRequired f)), Example.library)).
Proof.
  intros body.
  assert (∃ f, f ∈ ["title"; "releaseYear"; "platforms"; "genre";
                    "description"; "developer"] ∧ falsy (body !! f)) as Hg.
  { exists "releaseYear". split; [by repeat constructor|reflexivity]. }
  assert (∃ f, f ∈ ["name"; "description"; "age"; "nationality"; "height";
                    "weight"; "occupations"; "games"] ∧ falsy (body !! f))
    as Hc.
  { exists "name". split; [by repeat constructor|reflexivity]. }
  split_and!; [exact Hg| |exact Hc|].
  - exact (proj1 (@create_rejects_first_missing_field Example.lib
                    Example.oid1 body Example.library) Hg).
  - exact (proj2 (@create_rejects_first_missing_field Example.lib
                    Example.oid1 body Example.library) Hc).
Defined.

Lemma missing_is_falsy_witness :
  let zeroYear := <["releaseYear" := JNum (ofZ 0)]> Example.residentEvil in
  let noPlatforms := <["platforms" := JArr []]> Example.residentEvil in
  zeroYear !! "releaseYear" = Some (JNum (ofZ 0))
  ∧ (∃ f, rejectedFor f
            (@createGame Example.lib Example.oid6 zeroYear
               Example.empty).1)
  ∧ noPlatforms !! "platforms" = Some (JArr [])
  ∧ (∀ f, f ∈ createGame_requiredFields → f ≠ "platforms" →
          ¬ falsy (noPlatforms !! f))
  ∧ status (@createGame Example.lib Example.oid6 noPlatforms
              Example.empty).1 ≠ 400%nat.
Proof.
  intros zeroYear noPlatforms.
  assert (zeroYear !! "releaseYear" = Some (JNum (ofZ 0))) as Hzero
    by reflexivity.
  assert (noPlatforms !! "platforms" = Some (JArr [])) as Hempty
    by reflexivity.
  assert (∀ f, f ∈ createGame_requiredFields → f ≠ "platforms" →
               ¬ falsy (noPlatforms !! f)) as Hothers.
  { intros f Hf Hne. elem_of_fields Hf; subst f; try done;
      vm_compute; discriminate. }
  split_and!; [exact Hzero| |exact Hempty|exact Hothers|].
  - destruct (@missing_is_falsy Example.lib Example.oid6 zeroYear
                Example.empty) as (_ & _ & _ & Hyear & _).
    exact (Hyear Hzero).
  - destruct (@missing_is_falsy Example.lib Example.oid6 noPlatforms
                Example.empty) as (_ & _ & _ & _ & _ & Hplatforms).
    exact (Hplatforms Hempty Hothers).
Defined.

Lemma list_returns_the_requested_window_witness :
  let query := mkQuery (QString "2") (QString "3") in
  1 ≤ 2 ∧ 1 ≤ 3 ∧ 2 * 3 ≤ 2 ^ 53
  ∧ Number (page query) = ofZ 2 ∧ Number (limit query) = ofZ 3
  ∧ (∃ found,
        getAllGames query Example.library
        = (mkResponse 200 (GamesPage (ofZ 2) (ofZ 3) 4 found),
           Example.library)
        ∧ Z.of_nat (length found) = Z.min 3 (Z.max 0 (4 - (2 - 1) * 3)))
  ∧ (∃ found,
        getAllCharacters query Example.library
        = (mkResponse 200 (CharactersPage (ofZ 2) (ofZ 3) 1 found),
           Example.library)
        ∧ Z.of_nat (length found) = Z.min 3 (Z.max 0 (1 - (2 - 1) * 3))).
Proof.
  intros query.
  assert (1 ≤ 2) as HP by lia. assert (1 ≤ 3) as HL by lia.
  assert (2 * 3 ≤ 2 ^ 53) as Hmax by lia.
  assert (Number (page query) = ofZ 2) as Ep by reflexivity.
  assert (Number (limit query) = ofZ 3) as El by reflexivity.
  destruct (list_returns_the_requested_window query Example.library 2 3
              HP HL Hmax Ep El)
    as [(games & _ & Eg & Lg) (characters & _ & Ec & Lc)].
  split_and!; [exact HP|exact HL|exact Hmax|exact Ep|exact El| |].
  - eexists. split; [exact Eg|exact Lg].
  - eexists. split; [exact Ec|exact Lc].
Defined.

Lemma patch_changes_only_truthy_fields_witness :
  let body : gmap string JsValue :=
    <["title" := JStr "Biohazard"]> {[ "genre" := JStr EmptyString ]} in
  let old := Example.game Example.oid1 "Resident Evil" 1996 [Example.oid5] in
  @isValid Example.lib (JStr Example.oid1) = true
  ∧ @castObjectId Example.lib (JStr Example.oid1) = Some Example.oid1
  ∧ lookupId Games._id Example.oid1 (games Example.library) = Some old
  ∧ ∃ new,
      lookupId Games._id Example.oid1
        (games (@updateGameByIdPatch Example.lib Example.oid1 body
                  Example.library).2) = Some new
      ∧ Games.genre new = Games.genre old
      ∧ Games.releaseYear new = Games.releaseYear old
      ∧ Games.mainCharacters new = Games.mainCharacters old.
Proof.
  intros body old.
  assert (@isValid Example.lib (JStr Example.oid1) = true) as Hvalid
    by reflexivity.
  assert (@castObjectId Example.lib (JStr Example.oid1) = Some Example.oid1)
    as Hcast by reflexivity.
  assert (lookupId Games._id Example.oid1 (games Example.library) = Some old)
    as Hold by reflexivity.
  destruct (@patch_changes_only_truthy_fields Example.lib Example.oid1
              Example.oid1 body Example.library old Hvalid Hcast Hold)
    as (new & Hnew & _ & _ & Hyear & _ & Hgenre & _ & _ & Hmain & _).
  split_and!; [exact Hvalid|exact Hcast|exact Hold|].
  exists new. split_and!; [exact Hnew| | |].
  - apply Hgenre. reflexivity.
  - apply Hyear. reflexivity.
  - apply Hmain. reflexivity.
Defined.

(** C6 as stated fails: a PUT on a well-formed id with an empty body has
    no truthy [mainCharacters], and is answered 400 for [title]. *)
Lemma put_names_the_first_missing_field :
  let body : gmap string JsValue := ∅ in
  @isValid Example.lib (JStr Example.oid1) = true
  ∧ falsy (body !! "mainCharacters")
  ∧ @updateGameById Example.lib Example.oid1 body Example.library
    = (mkResponse 400 (Message (fieldRequired "title")), Example.library)
  ∧ ¬ rejectedFor "mainCharacters"
        (@updateGameById Example.lib Example.oid1 body Example.library).1.
Proof.
  split_and!; [reflexivity..|]. intros E. vm_compute in E. discriminate E.
Qed.

Lemma put_requires_mainCharacters_witness :
  let body := Example.residentEvil in
  @isValid Example.lib (JStr Example.oid1) = true
  ∧ falsy (body !! "mainCharacters")
  ∧ ∃ f, firstMissingOf updateGameById_requiredFields body f
         ∧ @updateGameById Example.lib Example.oid1 body Example.library
           = (mkResponse 400 (Message (fieldRequired f)), Example.library)
         ∧ (f = "mainCharacters"
            ↔ ∀ g, g ∈ createGame_requiredFields → ¬ falsy (body !! g)).
Proof.
  intros body.
  assert (@isValid Example.lib (JStr Example.oid1) = true) as Hvalid
    by reflexivity.
  assert (falsy (body !! "mainCharacters")) as Hmain by reflexivity.
  split_and!; [exact Hvalid|exact Hmain|].
  exact (proj1 (proj2 (@put_requires_mainCharacters Example.lib Example.oid1
                         body Example.library)) Hvalid Hmain).
Defined.

(** C7 as stated fails: a character create whose [games] holds an
    element that is no identifier, and whose [name] is missing, is
    answered 400 for [name], not for the identifiers. *)
Lemma create_character_names_the_missing_field_first :
  let body : gmap string JsValue := {[ "games" := JArr [JStr "abc"] ]} in
  body !! "games" = Some (JArr [JStr "abc"])
  ∧ @isValid Example.lib (JStr "abc") = false
  ∧ @createCharacter Example.lib Example.oid6 body Example.library
    = (mkResponse 400 (Message (fieldRequired "name")), Example.library)
  ∧ (@createCharacter Example.lib Example.oid6 body Example.library).1
    ≠ mkResponse 400 (Message "Invalid game ID(s) in the 'games' field").
Proof.
  split_and!; [reflexivity..|]. intros E. vm_compute in E. discriminate E.
Qed.

Lemma malformed_ids_are_rejected_witness :
  let body := Example.chris in
  @isValid Example.lib (JStr "abc") = false
  ∧ @getGameById Example.lib "abc" Example.library
    = (invalidGameId, Example.library)
  ∧ @deleteGameById Example.lib "abc" Example.library
    = (invalidGameId, Example.library)
  ∧ (∀ f, f ∈ createCharacter_requiredFields → ¬ falsy (body !! f))
  ∧ body !! "games" = Some (JArr [JStr Example.oid1; JStr "abc"])
  ∧ (∃ x, x ∈ [JStr Example.oid1; JStr "abc"]
          ∧ @isValid Example.lib x = false)
  ∧ @createCharacter Example.lib Example.oid6 body Example.library
    = (mkResponse 400 (Message "Invalid game ID(s) in the 'games' field"),
       Example.library).
Proof.
  intros body.
  assert (@isValid Example.lib (JStr "abc") = false) as Hbad by reflexivity.
  assert (∀ f, f ∈ createCharacter_requiredFields → ¬ falsy (body !! f))
    as Hall.
  { intros f Hf. elem_of_fields Hf; subst f; vm_compute; discriminate. }
  assert (body !! "games" = Some (JArr [JStr Example.oid1; JStr "abc"]))
    as Hgames by reflexivity.
  assert (∃ x, x ∈ [JStr Example.oid1; JStr "abc"]
               ∧ @isValid Example.lib x = false) as Hsome.
  { exists (JStr "abc"). split; [by repeat constructor|exact Hbad]. }
  destruct (@malformed_ids_are_rejected Example.lib "abc" Example.oid6 body
              Example.library) as [Hpath Hcreate].
  destruct (Hpath Hbad) as (Hget & _ & _ & Hdelete & _).
  split_and!; [exact Hbad|exact Hget|exact Hdelete|exact Hall|exact Hgames
              |exact Hsome|].
  exact (Hcreate _ Hall Hgames Hsome).
Defined.

Lemma created_game_is_found_witness :
  let created :=
    @createGame Example.lib Example.oid1 Example.residentEvil Example.empty in
  @isValid Example.lib (JStr Example.oid1) = true
  ∧ @castObjectId Example.lib (JStr Example.oid1) = Some Example.oid1
  ∧ status created.1 = 201%nat
  ∧ ∃ g, created.1 = mkResponse 201 (Game g)
         ∧ Games._id g = Example.oid1
         ∧ @getGameById Example.lib (Games._id g) created.2
           = (mkResponse 200 (Game g), created.2).
Proof.
  intros created.
  assert (@isValid Example.lib (JStr Example.oid1) = true) as Hvalid
    by reflexivity.
  assert (@castObjectId Example.lib (JStr Example.oid1) = Some Example.oid1)
    as Hcast by reflexivity.
  assert (@createGame Example.lib Example.oid1 Example.residentEvil
            Example.empty = (created.1, created.2)) as Hcreate
    by reflexivity.
  assert (status created.1 = 201%nat) as Hstatus by reflexivity.
  split_and!; [exact Hvalid|exact Hcast|exact Hstatus|].
  exact (@created_game_is_found Example.lib Example.oid1 Example.residentEvil
           Example.empty created.1 created.2 Hvalid Hcast Hcreate Hstatus).
Defined.

Lemma create_keeps_only_the_six_fields_witness :
  let body := Example.residentEvil in
  let body' :=
    <["mainCharacters" := JArr [JStr Example.oid5]]>
      (<["enemies" := JArr [JStr "Nemesis"]]> body) in
  (∀ f, f ∈ ["title"; "releaseYear"; "platforms"; "genre"; "description";
             "developer"] → body' !! f = body !! f)
  ∧ @createGame Example.lib Example.oid6 body' Example.empty
    = @createGame Example.lib Example.oid6 body Example.empty
  ∧ status (@createGame Example.lib Example.oid6 body' Example.empty).1
    = 201%nat
  ∧ ∃ g, (@createGame Example.lib Example.oid6 body' Example.empty).1
         = mkResponse 201 (Game g)
         ∧ Games.mainCharacters g = []
         ∧ Games.enemies g = []
         ∧ Games.locations g = [].
Proof.
  intros body body'.
  assert (∀ f, f ∈ ["title"; "releaseYear"; "platforms"; "genre";
                    "description"; "developer"] → body' !! f = body !! f)
    as Hsame.
  { intros f Hf. elem_of_fields Hf; subst f; reflexivity. }
  assert (status (@createGame Example.lib Example.oid6 body'
                    Example.empty).1 = 201%nat) as Hstatus by reflexivity.
  split_and!; [exact Hsame| |exact Hstatus|].
  - exact (proj1 (@create_keeps_only_the_six_fields Example.lib Example.oid6
                    body Example.empty) body' Hsame).
  - destruct (proj2 (@create_keeps_only_the_six_fields Example.lib
                       Example.oid6 body' Example.empty)
                _ _ eq_refl Hstatus)
      as (g & Hg & Hm & He & Hl & _).
    exists g. split_and!; [exact Hg|exact Hm|exact He|exact Hl].
Defined.

Lemma list_defaults_and_rejections_witness :
  let query := mkQuery (QString "abc") (QString "5") in
  effective (page query) 1 1 ∧ effective (limit query) 10 5
  ∧ 1 * 5 ≤ 2 ^ 53
  ∧ (∃ found,
        getAllGames query Example.library
        = (mkResponse 200 (GamesPage (ofZ 1) (ofZ 5) 4 found),
           Example.library))
  ∧ (belowOne (page (mkQuery (QString "0.5") QUndefined))
     ∨ belowOne (limit (mkQuery (QString "0.5") QUndefined)))
  ∧ status (getAllGames (mkQuery (QString "0.5") QUndefined)
              Example.library).1 = 400%nat.
Proof.
  intros query.
  assert (effective (page query) 1 1) as Hpage by (by left).
  assert (effective (limit query) 10 5) as Hlimit by (by right).
  assert (belowOne (page (mkQuery (QString "0.5") QUndefined))
          ∨ belowOne (limit (mkQuery (QString "0.5") QUndefined))) as Hlow
    by (by left).
  assert (1 * 5 ≤ 2 ^ 53) as Hmax by lia.
  split_and!; [exact Hpage|exact Hlimit|exact Hmax| |exact Hlow|].
  - destruct (list_defaults_and_rejections query Example.library)
      as (_ & _ & _ & _ & _ & _ & _ & Hok).
    eexists. exact (proj1 (Hok 1 5 Hpage Hlimit Hmax)).
  - destruct (list_defaults_and_rejections
                (mkQuery (QString "0.5") QUndefined) Example.library)
      as (_ & _ & _ & _ & _ & H400 & _).
    exact (proj2 H400 Hlow).
Defined.

(** * More on the handlers: what an update does to the collection *)

Lemma pickTruthy_pick fields body :
  Forall (λ f, truthy (body !! f) = true) fields →
  pickTruthy fields body = pick fields body.
Proof.
  unfold pickTruthy, pick.
  induction 1 as [|f fields Hf _ IH]; cbn [foldr]; [done|].
  rewrite IH. destruct (body !! f) as [v|]; [|done]. by rewrite Hf.
Qed.

Section Updates.
Context `{Lib}.

(** The three outcomes of [findByIdAndUpdate]. *)
Lemma findByIdAndUpdate_cases id update coll :
  match Games.findByIdAndUpdate id update coll with
  | None => True
  | Some None =>
      ∃ oid, castObjectId (JStr id) = Some oid
             ∧ is_Some (Games.castUpdate update)
             ∧ locate Games._id oid coll = None
  | Some (Some (g, coll')) =>
      ∃ oid set pre old post,
        castObjectId (JStr id) = Some oid
        ∧ Games.castUpdate update = Some set
        ∧ locate Games._id oid coll = Some (pre, old, post)
        ∧ g = set old
        ∧ coll' = pre ++ g :: post
        ∧ (Games.title g = Games.title old
           ∨ Games.title g ∉ Games.title <$> pre ++ post)
  end.
Proof.
  unfold Games.findByIdAndUpdate.
  destruct (castObjectId (JStr id)) as [oid|] eqn:Eoid;
    cbn [mbind option_bind]; [|done].
  destruct (Games.castUpdate update) as [set|] eqn:Eset;
    cbn [mbind option_bind]; [|done].
  destruct (locate Games._id oid coll) as [[[pre old] post]|] eqn:Eloc.
  - destruct (bool_decide (Games.title (set old) ≠ Games.title old))
      eqn:Etitle;
      destruct (bool_decide
                  (Games.title (set old) ∈ Games.title <$> pre ++ post))
        eqn:Edup;
      cbn [andb]; try done;
      exists oid, set, pre, old, post; split_and!; try done.
    + right. by apply bool_decide_eq_false in Edup.
    + left. apply bool_decide_eq_false in Etitle.
      by destruct (decide (Games.title (set old) = Games.title old)).
    + right. by apply bool_decide_eq_false in Edup.
  - exists oid. by split_and!.
Qed.

(** What an update sets does not depend on what was stored: setting
    twice is setting once. *)
Lemma castUpdate_idem update set old :
  Games.castUpdate update = Some set → set (set old) = set old.
Proof.
  unfold Games.castUpdate. intros E.
  destruct (castPath castString (update !! "title")) as [t|]; [|done].
  destruct (castPath castNumber (update !! "releaseYear")) as [y|]; [|done].
  destruct (castPath (castArray castString) (update !! "platforms"))
    as [p|]; [|done].
  destruct (castPath castString (update !! "genre")) as [g|]; [|done].
  destruct (castPath castString (update !! "description")) as [d|]; [|done].
  destruct (castPath castString (update !! "developer")) as [v|]; [|done].
  destruct (castPath (castArray castObjectId) (update !! "mainCharacters"))
    as [m|]; [|done].
  injection E as <-. cbn.
  by destruct t, y, p, g, d, v, m.
Qed.

Lemma findByIdAndUpdate_twice id update coll g coll' :
  Games.findByIdAndUpdate id update coll = Some (Some (g, coll')) →
  Games.findByIdAndUpdate id update coll' = Some (Some (g, coll')).
Proof.
  intros E. pose proof (findByIdAndUpdate_cases id update coll) as C.
  rewrite E in C.
  destruct C as (oid & set & pre & old & post
                 & Eoid & Eset & Eloc & -> & -> & _).
  destruct (locate_Some _ _ _ _ _ _ Eloc) as (_ & Hkey & Hpre).
  destruct (castUpdate_frame update set old Eset) as (Hid & _).
  unfold Games.findByIdAndUpdate. rewrite Eoid, Eset.
  cbn [mbind option_bind].
  rewrite (locate_fresh Games._id oid pre (set old) post Hpre)
    by congruence.
  cbv zeta. rewrite (castUpdate_idem update set old Eset).
  by rewrite bool_decide_eq_false_2 by (by intros ?).
Qed.

(** X1.  PATCH and PUT are idempotent: the same request again is
    answered as the first time and leaves the database as the first left
    it. *)
Theorem update_twice_is_update_once id body db :
  updateGameByIdPatch id body (updateGameByIdPatch id body db).2
  = updateGameByIdPatch id body db
  ∧ updateGameById id body (updateGameById id body db).2
    = updateGameById id body db.
Proof.
  split.
  - unfold updateGameByIdPatch.
    destruct (negb (isValid (JStr id))); [done|].
    destruct (Games.findByIdAndUpdate id _ (games db))
      as [[[g coll]|]|] eqn:E; cbn [fst snd games characters];
      rewrite ?E; [|done..].
    by rewrite (findByIdAndUpdate_twice _ _ _ _ _ E).
  - unfold updateGameById.
    destruct (negb (isValid (JStr id))); [done|].
    destruct (firstMissing updateGameById_requiredFields body); [done|].
    destruct (Games.findByIdAndUpdate id _ (games db))
      as [[[g coll]|]|] eqn:E; cbn [fst snd games characters];
      rewrite ?E; [|done..].
    by rewrite (findByIdAndUpdate_twice _ _ _ _ _ E).
Qed.

(** X2.  When the seven fields are all truthy in the body, PATCH does
    what PUT does. *)
Theorem patch_of_a_full_body_is_put id body db :
  (∀ f, f ∈ ["title"; "releaseYear"; "platforms"; "genre"; "description";
             "developer"; "mainCharacters"] → ¬ falsy (body !! f)) →
  updateGameByIdPatch id body db = updateGameById id body db.
Proof.
  intros Hall.
  assert (Forall (λ f, truthy (body !! f) = true)
            updateGameById_requiredFields) as Hforall.
  { apply Forall_forall. intros f Hf. specialize (Hall f Hf).
    unfold falsy in Hall. by destruct (truthy (body !! f)). }
  unfold updateGameByIdPatch, updateGameById.
  rewrite (proj2 (firstMissing_None _ _) Hforall).
  by rewrite (pickTruthy_pick _ _ Hforall).
Qed.
End Updates.

Section UpdatesAndLookups.
Context `{Lib}.

Lemma findByIdAndUpdate_shape id update coll g coll' :
  Games.findByIdAndUpdate id update coll = Some (Some (g, coll')) →
  Games._id <$> coll' = Games._id <$> coll
  ∧ Games.enemies <$> coll' = Games.enemies <$> coll
  ∧ Games.locations <$> coll' = Games.locations <$> coll.
Proof.
  intros E. pose proof (findByIdAndUpdate_cases id update coll) as C.
  rewrite E in C.
  destruct C as (oid & set & pre & old & post
                 & _ & Eset & Eloc & -> & -> & _).
  destruct (locate_Some _ _ _ _ _ _ Eloc) as (-> & _ & _).
  destruct (castUpdate_frame update set old Eset) as (Hid & He & Hl & _).
  rewrite !fmap_app, !fmap_cons. by rewrite Hid, He, Hl.
Qed.

(** X3.  A PUT or a PATCH never adds, removes or reorders games, never
    changes the [enemies] or the [locations] of a game, and never touches
    the characters. *)
Theorem update_keeps_the_collection_shape id body db :
  (Games._id <$> games (updateGameByIdPatch id body db).2
   = Games._id <$> games db
   ∧ Games.enemies <$> games (updateGameByIdPatch id body db).2
     = Games.enemies <$> games db
   ∧ Games.locations <$> games (updateGameByIdPatch id body db).2
     = Games.locations <$> games db
   ∧ characters (updateGameByIdPatch id body db).2 = characters db)
  ∧ (Games._id <$> games (updateGameById id body db).2
     = Games._id <$> games db
     ∧ Games.enemies <$> games (updateGameById id body db).2
       = Games.enemies <$> games db
     ∧ Games.locations <$> games (updateGameById id body db).2
       = Games.locations <$> games db
     ∧ characters (updateGameById id body db).2 = characters db).
Proof.
  split.
  - unfold updateGameByIdPatch.
    destruct (negb (isValid (JStr id))); [done|].
    destruct (Games.findByIdAndUpdate id _ (games db))
      as [[[g coll]|]|] eqn:E; cbn [fst snd games characters]; [|done..].
    destruct (findByIdAndUpdate_shape _ _ _ _ _ E) as (? & ? & ?).
    by split_and!.
  - unfold updateGameById.
    destruct (negb (isValid (JStr id))); [done|].
    destruct (firstMissing updateGameById_requiredFields body); [done|].
    destruct (Games.findByIdAndUpdate id _ (games db))
      as [[[g coll]|]|] eqn:E; cbn [fst snd games characters]; [|done..].
    destruct (findByIdAndUpdate_shape _ _ _ _ _ E) as (? & ? & ?).
    by split_and!.
Qed.

Lemma findById_after_update id update coll g coll' :
  Games.findByIdAndUpdate id update coll = Some (Some (g, coll')) →
  Games.findById id coll' = Some (Some g).
Proof.
  intros E. pose proof (findByIdAndUpdate_cases id update coll) as C.
  rewrite E in C.
  destruct C as (oid & set & pre & old & post
                 & Eoid & Eset & Eloc & -> & -> & _).
  destruct (locate_Some _ _ _ _ _ _ Eloc) as (_ & Hkey & Hpre).
  destruct (castUpdate_frame update set old Eset) as (Hid & _).
  unfold Games.findById. rewrite Eoid. cbn [mbind option_bind].
  rewrite lookupId_fresh; [done|done|congruence].
Qed.

(** X4.  After a PUT or a PATCH answered 200, a get-by-id on the same
    path id is answered 200 with the game the update returned. *)
Theorem updated_game_is_found id body db :
  (status (updateGameByIdPatch id body db).1 = 200%nat →
   ∃ g, (updateGameByIdPatch id body db).1 = mkResponse 200 (Game g)
        ∧ getGameById id (updateGameByIdPatch id body db).2
          = (mkResponse 200 (Game g), (updateGameByIdPatch id body db).2))
  ∧ (status (updateGameById id body db).1 = 200%nat →
     ∃ g, (updateGameById id body db).1 = mkResponse 200 (Game g)
          ∧ getGameById id (updateGameById id body db).2
            = (mkResponse 200 (Game g), (updateGameById id body db).2)).
Proof.
  split.
  - unfold updateGameByIdPatch, getGameById.
    destruct (negb (isValid (JStr id))); [done|].
    destruct (Games.findByIdAndUpdate id _ (games db))
      as [[[g coll]|]|] eqn:E; cbn [fst snd games status]; [|done..].
    intros _. exists g. split; [done|].
    by rewrite (findById_after_update _ _ _ _ _ E).
  - unfold updateGameById, getGameById.
    destruct (negb (isValid (JStr id))); [done|].
    destruct (firstMissing updateGameById_requiredFields body); [done|].
    destruct (Games.findByIdAndUpdate id _ (games db))
      as [[[g coll]|]|] eqn:E; cbn [fst snd games status]; [|done..].
    intros _. exists g. split; [done|].
    by rewrite (findById_after_update _ _ _ _ _ E).
Qed.

(** X5.  On a well-formed id, PUT rejects every body that create rejects
    for a required field, with the same response. *)
Theorem put_rejects_what_create_rejects oid id body db f :
  isValid (JStr id) = true →
  rejectedFor f (createGame oid body db).1 →
  updateGameById id body db
  = (mkResponse 400 (Message (fieldRequired f)), db).
Proof.
  intros Hvalid Hrej%createGame_rejectedFor_first.
  unfold updateGameById. rewrite Hvalid. cbn [negb].
  change updateGameById_requiredFields
    with (createGame_requiredFields ++ ["mainCharacters"]).
  by rewrite firstMissing_app, Hrej.
Qed.
End UpdatesAndLookups.

(** * Unique keys, deletion and ids that are not stored *)

Section LookupMore.
Context {D : Type} (key : D → string).

Lemma lookupId_None id coll :
  lookupId key id coll = None ↔ Forall (λ x, key x ≠ id) coll.
Proof.
  induction coll as [|x coll IH]; rewrite ?lookupId_cons.
  - split; [constructor|done].
  - case_bool_decide as Hx.
    + split; [done|]. intros [? _]%Forall_cons. done.
    + rewrite IH, Forall_cons. split; [by intros ?|by intros [_ ?]].
Qed.

Lemma lookupId_key id coll d : lookupId key id coll = Some d → key d = id.
Proof.
  intros (pre & post & Hloc)%lookupId_Some.
  by destruct (locate_Some _ _ _ _ _ _ Hloc) as (_ & ? & _).
Qed.


(** Without the document that [locate] found, a collection of unique
    keys has no document of that key left, and the other lookups are as
    before. *)
Lemma lookupId_removed id pre d post :
  NoDup (key <$> pre ++ d :: post) → key d = id →
  lookupId key id (pre ++ post) = None.
Proof.
  rewrite fmap_app, fmap_cons. intros Hnodup <-.
  apply NoDup_app in Hnodup as (_ & Hpre & [Hpost _]%NoDup_cons).
  apply lookupId_None, Forall_app. split; apply Forall_forall; intros x Hx E.
  - apply (Hpre (key x)); [by apply list_elem_of_fmap_2|].
    rewrite E. by left.
  - apply Hpost. rewrite <- E. by apply list_elem_of_fmap_2.
Qed.

Lemma lookupId_removed_other id pre d post :
  id ≠ key d →
  lookupId key id (pre ++ post) = lookupId key id (pre ++ d :: post).
Proof.
  intros Hne. induction pre as [|x pre IH]; simpl.
  - by rewrite lookupId_cons, bool_decide_eq_false_2.
  - by rewrite !lookupId_cons, IH.
Qed.

End LookupMore.

Lemma NoDup_snoc {A} (l : list A) x : NoDup l → x ∉ l → NoDup (l ++ [x]).
Proof.
  intros Hl Hx. apply NoDup_app. split_and!; [done| |apply NoDup_singleton].
  intros y Hy ->%list_elem_of_singleton. done.
Qed.

Lemma NoDup_replace {A} (pre post : list A) x y :
  NoDup (pre ++ x :: post) → (y = x ∨ y ∉ pre ++ post) →
  NoDup (pre ++ y :: post).
Proof.
  intros Hnodup [->|Hy]; [done|].
  apply NoDup_app in Hnodup as (Hpre & Hdisj & [_ Hpost]%NoDup_cons).
  apply NoDup_app. split_and!; [done| |].
  - intros z Hz [->|Hin]%elem_of_cons.
    + apply Hy. set_solver.
    + apply (Hdisj z Hz). by right.
  - apply NoDup_cons. split; [|done]. set_solver.
Qed.

Lemma NoDup_remove_middle {A} (pre post : list A) x :
  NoDup (pre ++ x :: post) → NoDup (pre ++ post).
Proof.
  intros (Hpre & Hdisj & [_ Hpost]%NoDup_cons)%NoDup_app.
  apply NoDup_app. split_and!; [done| |done].
  intros z Hz Hin. apply (Hdisj z Hz). by right.
Qed.

Section Outcomes.
Context `{Lib}.

Lemma save_unique doc coll coll' :
  Games.save doc coll = Some coll' →
  coll' = coll ++ [doc]
  ∧ (Games._id doc ∉ Games._id <$> coll)
  ∧ (Games.title doc ∉ Games.title <$> coll).
Proof.
  unfold Games.save. case_bool_decide as Hid; [done|].
  case_bool_decide as Htitle; [done|]. by intros [= <-].
Qed.

Lemma new_character_fields oid n d a t h w o g c :
  Characters.new oid n d a t h w o g = Some c →
  Characters._id c = oid ∧ Characters.organizations c = []
  ∧ castArray castObjectId (default (JArr []) g) = Some (Characters.games c).
Proof.
  unfold Characters.new. intros E.
  destruct (required castString n ≫= requiredString); [|done].
  destruct (required castString d ≫= requiredString); [|done].
  destruct (required castNumber a); [|done].
  destruct (required castString t ≫= requiredString); [|done].
  destruct (required castString h ≫= requiredString); [|done].
  destruct (required castString w ≫= requiredString); [|done].
  destruct (castArray castString (default (JArr []) o) ≫= mapM requiredString);
    [|done].
  destruct (castArray castObjectId (default (JArr []) g)); [|done].
  by injection E as <-.
Qed.

(** The outcomes of [createCharacter]: the character stored and answered
    201, or an error and the database as it was. *)
Lemma createCharacter_outcome oid body db :
  (∃ c ids,
      createCharacter oid body db
      = (mkResponse 201
           (Character
              (populateGames (mkDb (games db) (characters db ++ [c])) c)),
         mkDb (games db) (characters db ++ [c]))
      ∧ firstMissing createCharacter_requiredFields body = None
      ∧ body !! "games" = Some (JArr ids)
      ∧ forallb isValid ids = true
      ∧ Characters.new oid (body !! "name") (body !! "description")
          (body !! "age") (body !! "nationality") (body !! "height")
          (body !! "weight") (body !! "occupations") (body !! "games")
        = Some c
      ∧ Characters._id c ∉ Characters._id <$> characters db)
  ∨ ((createCharacter oid body db).2 = db
     ∧ ((∃ f, rejectedFor f (createCharacter oid body db).1)
        ∨ (createCharacter oid body db).1 = invalidGameIds
        ∨ (createCharacter oid body db).1 = internalServerError)).
Proof.
  unfold createCharacter.
  destruct (firstMissing createCharacter_requiredFields body) as [f|] eqn:Ef.
  { right. split; [done|]. left. by exists f. }
  unfold someInvalidGameId.
  destruct (truthy (body !! "games")) eqn:Hg.
  - destruct (body !! "games") as [[| | | |ids|]|] eqn:Eg;
      try (right; split; [done|]; right; by right).
    destruct (forallb isValid ids) eqn:Hall; cbn [negb];
      [|right; split; [done|]; right; by left].
    destruct (Characters.new _ _ _ _ _ _ _ _ _) as [c|] eqn:Ec;
      cbn [mbind option_bind]; [|right; split; [done|]; right; by right].
    unfold Characters.save. case_bool_decide as Hid;
      cbn [mbind option_bind]; [right; split; [done|]; right; by right|].
    left. exists c, ids. by split_and!.
  - apply firstMissing_None in Ef. rewrite Forall_forall in Ef.
    rewrite Ef in Hg; [done|]. by repeat constructor.
Qed.

Lemma findByIdAndDelete_cases id coll :
  match Games.findByIdAndDelete id coll with
  | None => castObjectId (JStr id) = None
  | Some (None, coll') =>
      coll' = coll
      ∧ ∃ oid, castObjectId (JStr id) = Some oid
               ∧ lookupId Games._id oid coll = None
  | Some (Some g, coll') =>
      ∃ oid pre post,
        castObjectId (JStr id) = Some oid
        ∧ locate Games._id oid coll = Some (pre, g, post)
        ∧ coll' = pre ++ post
  end.
Proof.
  unfold Games.findByIdAndDelete, lookupId.
  destruct (castObjectId (JStr id)) as [oid|]; cbn [mbind option_bind];
    [|done].
  destruct (locate Games._id oid coll) as [[[pre g] post]|] eqn:Eloc.
  - by exists oid, pre, post.
  - split; [done|]. exists oid. by rewrite Eloc.
Qed.

(** X6.  Every handler keeps the keys unique: no two games of one [_id]
    or one [title], no two characters of one [_id]. *)
Theorem handlers_keep_keys_unique oid id body db :
  uniqueKeys db →
  uniqueKeys (createGame oid body db).2
  ∧ uniqueKeys (updateGameById id body db).2
  ∧ uniqueKeys (updateGameByIdPatch id body db).2
  ∧ uniqueKeys (deleteGameById id db).2
  ∧ uniqueKeys (createCharacter oid body db).2.
Proof.
  intros (Hids & Htitles & Hchars).
  assert (∀ update g coll,
            Games.findByIdAndUpdate id update (games db)
            = Some (Some (g, coll)) →
            uniqueKeys (mkDb coll (characters db))) as Hupdate.
  { intros update g coll E.
    destruct (findByIdAndUpdate_shape _ _ _ _ _ E) as (Eids & _).
    pose proof (findByIdAndUpdate_cases id update (games db)) as C.
    rewrite E in C.
    destruct C as (o & set & pre & old & post
                   & _ & _ & Eloc & -> & -> & Htitle).
    destruct (locate_Some _ _ _ _ _ _ Eloc) as (Ecoll & _ & _).
    split_and!; cbn [games characters]; [by rewrite Eids| |done].
    rewrite Ecoll, fmap_app, fmap_cons in Htitles.
    rewrite fmap_app, fmap_cons.
    apply (NoDup_replace _ _ _ _ Htitles).
    by rewrite <- fmap_app. }
  split_and!.
  - pose proof (createGame_cases oid body db) as C.
    destruct (firstMissing createGame_requiredFields body);
      [by rewrite C|].
    destruct C as [(g & coll & -> & _ & Hsave)| ->]; [|done].
    apply save_unique in Hsave as (-> & ? & ?).
    split_and!; cbn [snd games characters]; [| |done];
      rewrite fmap_app; by apply NoDup_snoc.
  - unfold updateGameById.
    destruct (negb (isValid (JStr id))); [done|].
    destruct (firstMissing updateGameById_requiredFields body); [done|].
    destruct (Games.findByIdAndUpdate id _ (games db))
      as [[[g coll]|]|] eqn:E; cbn [snd]; [|done..].
    by apply (Hupdate _ _ _ E).
  - unfold updateGameByIdPatch.
    destruct (negb (isValid (JStr id))); [done|].
    destruct (Games.findByIdAndUpdate id _ (games db))
      as [[[g coll]|]|] eqn:E; cbn [snd]; [|done..].
    by apply (Hupdate _ _ _ E).
  - unfold deleteGameById.
    destruct (negb (isValid (JStr id))); [done|].
    pose proof (findByIdAndDelete_cases id (games db)) as C.
    destruct (Games.findByIdAndDelete id (games db)) as [[[g|] coll]|];
      cbn [snd]; [|done..].
    destruct C as (o & pre & post & _ & Eloc & ->).
    destruct (locate_Some _ _ _ _ _ _ Eloc) as (Ecoll & _ & _).
    rewrite Ecoll, fmap_app, fmap_cons in Hids, Htitles.
    split_and!; cbn [games characters]; [| |done];
      rewrite fmap_app; by eapply NoDup_remove_middle.
  - destruct (createCharacter_outcome oid body db)
      as [(c & ids & E & _ & _ & _ & _ & Hfresh)|[-> _]]; [|done].
    rewrite E.
    split_and!; cbn [snd games characters]; [done..|].
    rewrite fmap_app. by apply NoDup_snoc.
Qed.
End Outcomes.

Section DeleteAndUnknown.
Context `{Lib}.

(** X7.  A DELETE on the well-formed id of a stored game, the ids of the
    games being unique, is answered 200 with [Game Deleted Correctly] and
    removes that game and nothing else: the other games are found as
    before, the characters are untouched (also those that refer to the
    game), and a get or a second delete on the id is answered 404. *)
Theorem delete_removes_the_game id oid db g :
  NoDup (Games._id <$> games db) →
  isValid (JStr id) = true →
  castObjectId (JStr id) = Some oid →
  lookupId Games._id oid (games db) = Some g →
  ∃ db',
    deleteGameById id db
    = (mkResponse 200 (Message "Game Deleted Correctly"), db')
    ∧ lookupId Games._id oid (games db') = None
    ∧ (∀ other, other ≠ oid →
         lookupId Games._id other (games db')
         = lookupId Games._id other (games db))
    ∧ S (length (games db')) = length (games db)
    ∧ characters db' = characters db
    ∧ getGameById id db' = (gameNotFound, db')
    ∧ deleteGameById id db' = (gameNotFound, db').
Proof.
  intros Hnodup Hvalid Hcast Hfound.
  destruct (lookupId_Some _ _ _ _ Hfound) as (pre & post & Hloc).
  destruct (locate_Some _ _ _ _ _ _ Hloc) as (Hcoll & Hkey & _).
  assert (lookupId Games._id oid (pre ++ post) = None) as Hgone.
  { apply (lookupId_removed Games._id oid pre g post); [|done].
    by rewrite <- Hcoll. }
  exists (mkDb (pre ++ post) (characters db)).
  unfold deleteGameById, getGameById, Games.findByIdAndDelete,
    Games.findById.
  rewrite Hvalid, Hcast. cbn [negb mbind option_bind games characters].
  rewrite Hloc, Hgone. split_and!; try done.
  - intros other Hne. rewrite Hcoll.
    apply lookupId_removed_other. congruence.
  - rewrite Hcoll, !length_app. simpl. lia.
  - apply lookupId_None in Hgone. unfold lookupId in Hgone.
    destruct (locate Games._id oid (pre ++ post)) as [[[??]?]|] eqn:E;
      [|done].
    destruct (locate_Some _ _ _ _ _ _ E) as (E' & Hk & _).
    rewrite E', Forall_app, Forall_cons in Hgone.
    by destruct Hgone as (_ & ? & _).
Qed.

(** X8.  On a well-formed id that no game has, a get and a delete are
    answered 404 [GameID Not Found]; a PATCH and a PUT that passes its
    required fields are answered 404, or 500 when a value of the body
    cannot be cast, and a PATCH with nothing truthy is answered 404.
    The database is left as it was. *)
Theorem unknown_id_is_not_found id oid body db :
  isValid (JStr id) = true →
  castObjectId (JStr id) = Some oid →
  lookupId Games._id oid (games db) = None →
  getGameById id db = (gameNotFound, db)
  ∧ deleteGameById id db = (gameNotFound, db)
  ∧ (updateGameByIdPatch id body db = (gameNotFound, db)
     ∨ updateGameByIdPatch id body db = (internalServerError, db))
  ∧ ((∀ f, f ∈ updateGameById_requiredFields → falsy (body !! f)) →
     updateGameByIdPatch id body db = (gameNotFound, db))
  ∧ (firstMissing updateGameById_requiredFields body = None →
     updateGameById id body db = (gameNotFound, db)
     ∨ updateGameById id body db = (internalServerError, db)).
Proof.
  intros Hvalid Hcast Hnone.
  assert (locate Games._id oid (games db) = None) as Hloc.
  { unfold lookupId in Hnone.
    by destruct (locate Games._id oid (games db)) as [[[??]?]|]. }
  unfold getGameById, deleteGameById, updateGameByIdPatch, updateGameById,
    Games.findById, Games.findByIdAndDelete, Games.findByIdAndUpdate.
  rewrite Hvalid, Hcast. cbn [negb mbind option_bind].
  rewrite Hnone, Hloc. split_and!; try done.
  - destruct (Games.castUpdate _); cbn [mbind option_bind]; auto.
  - intros Hall. rewrite (pickTruthy_empty _ _ Hall).
    destruct castUpdate_empty as (set & -> & _). done.
  - intros ->. destruct (Games.castUpdate _); cbn [mbind option_bind]; auto.
Qed.
End DeleteAndUnknown.

(** * What [populate] resolves *)

Section Resolve.
Context {D : Type} (key : D → string).

Lemma resolve_fmap {R} (proj : D → R) coll refs :
  resolve key proj coll refs = proj <$> resolve key id coll refs.
Proof.
  unfold resolve. induction refs as [|i refs IH]; [done|]. cbn [omap list_omap].
  rewrite IH. by destruct (lookupId key i coll).
Qed.

Lemma resolve_keys coll refs :
  key <$> resolve key id coll refs
  = filter (λ i, is_Some (lookupId key i coll)) refs.
Proof.
  unfold resolve. induction refs as [|i refs IH]; [done|].
  cbn [omap list_omap]. rewrite filter_cons.
  destruct (lookupId key i coll) as [d|] eqn:E; cbn [fmap option_fmap option_map].
  - rewrite decide_True by done. rewrite fmap_cons, IH.
    f_equal. exact (lookupId_key _ _ _ _ E).
  - rewrite decide_False; [done|]. by intros [? ?].
Qed.

Lemma resolve_stored coll refs :
  Forall (λ d, lookupId key (key d) coll = Some d ∧ key d ∈ refs)
    (resolve key id coll refs).
Proof.
  unfold resolve. induction refs as [|i refs IH]; [constructor|].
  cbn [omap list_omap].
  assert (Forall (λ d, lookupId key (key d) coll = Some d
                       ∧ key d ∈ i :: refs)
            (omap (λ i, id <$> lookupId key i coll) refs)) as IH'.
  { eapply Forall_impl; [exact IH|]. intros d [? ?]. split; [done|].
    by right. }
  destruct (lookupId key i coll) as [d|] eqn:E;
    cbn [fmap option_fmap option_map]; [|done].
  constructor; [|done]. change (id d) with d.
  rewrite (lookupId_key _ _ _ _ E). split; [done|]. by left.
Qed.
End Resolve.

(** * Errors, statuses and creates *)

Ltac error_shape :=
  unfold errorShape; cbn;
  split_and!; first [done | lia | intros _; by eexists].

Section Requests.
Context `{Lib}.

(** X10.  The three read handlers never change the database, and a write
    handler changes it only when it answers with its success status: a
    request answered with an error leaves everything as it was. *)
Theorem failed_request_changes_nothing oid id body query db :
  (getAllGames query db).2 = db
  ∧ (getGameById id db).2 = db
  ∧ (getAllCharacters query db).2 = db
  ∧ (status (createGame oid body db).1 ≠ 201%nat →
     (createGame oid body db).2 = db)
  ∧ (status (updateGameById id body db).1 ≠ 200%nat →
     (updateGameById id body db).2 = db)
  ∧ (status (updateGameByIdPatch id body db).1 ≠ 200%nat →
     (updateGameByIdPatch id body db).2 = db)
  ∧ (status (deleteGameById id db).1 ≠ 200%nat →
     (deleteGameById id db).2 = db)
  ∧ (status (createCharacter oid body db).1 ≠ 201%nat →
     (createCharacter oid body db).2 = db).
Proof.
  split_and!.
  - unfold getAllGames. by repeat case_match.
  - unfold getGameById. by repeat case_match.
  - unfold getAllCharacters. by repeat case_match.
  - pose proof (createGame_cases oid body db) as C.
    destruct (firstMissing createGame_requiredFields body);
      [by rewrite C|].
    by destruct C as [(g & coll & -> & _)| ->].
  - unfold updateGameById. by repeat case_match.
  - unfold updateGameByIdPatch. by repeat case_match.
  - unfold deleteGameById. by repeat case_match.
  - destruct (createCharacter_outcome oid body db)
      as [(c & ids & -> & _)|[-> _]]; done.
Qed.

(** X11.  The statuses a handler can answer with: 201, 400 or 500 for a
    create, 200, 400 or 500 for a list, and 200, 400, 404 or 500 for a
    get, a PUT, a PATCH or a DELETE.  Every 500 is the one response
    [Internal Server Error], every 404 is [GameID Not Found], and every
    answer of 400 or more carries a message only. *)
Theorem handlers_answer_with_their_statuses oid id body query db :
  status (createGame oid body db).1 ∈ [201; 400; 500]%nat
  ∧ status (createCharacter oid body db).1 ∈ [201; 400; 500]%nat
  ∧ status (getAllGames query db).1 ∈ [200; 400; 500]%nat
  ∧ status (getAllCharacters query db).1 ∈ [200; 400; 500]%nat
  ∧ status (getGameById id db).1 ∈ [200; 400; 404; 500]%nat
  ∧ status (updateGameById id body db).1 ∈ [200; 400; 404; 500]%nat
  ∧ status (updateGameByIdPatch id body db).1 ∈ [200; 400; 404; 500]%nat
  ∧ status (deleteGameById id db).1 ∈ [200; 400; 404; 500]%nat
  ∧ ∀ r, r ∈ [(createGame oid body db).1; (createCharacter oid body db).1;
              (getAllGames query db).1; (getAllCharacters query db).1;
              (getGameById id db).1; (updateGameById id body db).1;
              (updateGameByIdPatch id body db).1;
              (deleteGameById id db).1] →
         errorShape r.
Proof.
  pose proof (createGame_cases oid body db) as Cg.
  pose proof (createCharacter_outcome oid body db) as Cc.
  split_and!.
  - destruct (firstMissing createGame_requiredFields body);
      [rewrite Cg|destruct Cg as [(g & coll & -> & _)| ->]];
      cbn [fst status internalServerError]; rewrite !elem_of_cons; auto.
  - destruct Cc as [(c & ids & -> & _)|[_ [[f ->]|[-> | ->]]]];
      cbn [fst status internalServerError invalidGameIds];
      rewrite !elem_of_cons; auto.
  - unfold getAllGames. repeat case_match; cbn; rewrite !elem_of_cons; auto.
  - unfold getAllCharacters.
    repeat case_match; cbn; rewrite !elem_of_cons; auto.
  - unfold getGameById. repeat case_match; cbn; rewrite !elem_of_cons; auto.
  - unfold updateGameById.
    repeat case_match; cbn; rewrite !elem_of_cons; auto 6.
  - unfold updateGameByIdPatch.
    repeat case_match; cbn; rewrite !elem_of_cons; auto 6.
  - unfold deleteGameById.
    repeat case_match; cbn; rewrite !elem_of_cons; auto 6.
  - intros r Hr. elem_of_fields Hr; subst r.
    + destruct (firstMissing createGame_requiredFields body);
        [rewrite Cg|destruct Cg as [(g & coll & -> & _)| ->]];
        error_shape.
    + destruct Cc as [(c & ids & -> & _)|[_ [[f ->]|[-> | ->]]]];
        error_shape.
    + unfold getAllGames. repeat case_match; error_shape.
    + unfold getAllCharacters. repeat case_match; error_shape.
    + unfold getGameById. repeat case_match; error_shape.
    + unfold updateGameById. repeat case_match; error_shape.
    + unfold updateGameByIdPatch. repeat case_match; error_shape.
    + unfold deleteGameById. repeat case_match; error_shape.
Qed.
End Requests.

Section Creates.
Context `{Lib}.

Lemma new_other_id oid oid' t y p g d v doc :
  Games.new oid t y p g d v = Some doc →
  ∃ doc', Games.new oid' t y p g d v = Some doc'
          ∧ Games.title doc' = Games.title doc.
Proof.
  unfold Games.new. intros E.
  destruct (required castString t ≫= requiredString); [|done].
  destruct (required castNumber y); [|done].
  destruct (castArray castString (default (JArr []) p)); [|done].
  destruct (required castString g ≫= requiredString); [|done].
  destruct (required castString d ≫= requiredString); [|done].
  destruct (required castString v ≫= requiredString); [|done].
  injection E as <-. by eexists.
Qed.

(** X12.  The same body posted again to create, after a create that was
    answered 201, is answered 500 [Internal Server Error] and stores
    nothing: the title is taken, and the failure of the insert is not
    told apart from any other. *)
Theorem second_create_of_a_title_fails oid oid' body db r db' :
  createGame oid body db = (r, db') →
  status r = 201%nat →
  createGame oid' body db' = (internalServerError, db').
Proof.
  intros Hcreate Hstatus.
  pose proof (createGame_cases oid body db) as C.
  unfold createGame.
  destruct (firstMissing createGame_requiredFields body).
  { rewrite C in Hcreate. by simplify_eq. }
  destruct C as [(g & coll & C & Hnew & Hsave)|C];
    rewrite C in Hcreate; [|by simplify_eq].
  injection Hcreate as <- <-.
  destruct (new_other_id oid oid' _ _ _ _ _ _ _ Hnew) as (g' & -> & Htitle).
  apply save_Some in Hsave as (-> & _).
  cbn [mbind option_bind games]. unfold Games.save.
  rewrite (bool_decide_eq_true_2 (Games.title g' ∈ _)).
  - by rewrite orb_true_r.
  - rewrite Htitle, fmap_app. set_solver.
Qed.

(** X13.  After a create answered 201 in a collection of fewer than ten
    games, the list without parameters shows the games it showed before,
    then the new game with no main characters, and counts one more. *)
Theorem created_game_is_listed_last oid body db g db' :
  createGame oid body db = (mkResponse 201 (Game g), db') →
  (length (games db) < 10)%nat →
  getAllGames (mkQuery QUndefined QUndefined) db'
  = (mkResponse 200
       (GamesPage (ofZ 1) (ofZ 10) (S (length (games db)))
          (gamesOf (getAllGames (mkQuery QUndefined QUndefined) db).1
             ++ [Games.populated g []])), db').
Proof.
  intros Hcreate Hfew.
  pose proof (createGame_cases oid body db) as C.
  destruct (firstMissing createGame_requiredFields body).
  { rewrite C in Hcreate. by simplify_eq. }
  destruct C as [(g' & coll & C & Hnew & Hsave)|C];
    rewrite C in Hcreate; [|by simplify_eq].
  injection Hcreate as -> <-.
  apply new_fields in Hnew as (_ & Hmain & _).
  apply save_Some in Hsave as (-> & _).
  rewrite (getAllGames_whole (mkQuery QUndefined QUndefined) _ 1 10),
          (getAllGames_whole (mkQuery QUndefined QUndefined) db 1 10)
    by (done || lia).
  cbn [fst gamesOf json games characters]. change (Z.to_nat 10) with 10%nat.
  change (Z.to_nat ((1 - 1) * 10)) with 0%nat. rewrite !drop_0.
  rewrite !take_ge by (rewrite ?length_app; simpl; lia).
  rewrite length_app, fmap_app. cbn [length fmap list_fmap].
  replace (length (games db) + 1)%nat with (S (length (games db))) by lia.
  unfold populateMainCharacters. cbn [characters]. by rewrite Hmain.
Qed.

(** X14.  A character create answered 201 stores one character, last in
    its collection and under the identifier generated, with no
    organizations, and leaves the games as they were.  The character
    stored is the document the schema makes of the eight fields of the
    body; its [games] are the identifiers of the body's [games], all of
    them and in their order, whether a game is stored under them or not.
    The games of the response are the stored games those references
    resolve to, in their order: a reference to a game that is not stored
    is kept in the character and left out of the response. *)
Theorem create_character_stores_and_populates oid body db :
  status (createCharacter oid body db).1 = 201%nat →
  ∃ c ids found,
    createCharacter oid body db
    = (mkResponse 201 (Character (Characters.populated c found)),
       mkDb (games db) (characters db ++ [c]))
    ∧ Characters._id c = oid
    ∧ Characters.organizations c = []
    ∧ Characters.new oid (body !! "name") (body !! "description")
        (body !! "age") (body !! "nationality") (body !! "height")
        (body !! "weight") (body !! "occupations") (body !! "games")
      = Some c
    ∧ body !! "games" = Some (JArr ids)
    ∧ mapM castObjectId ids = Some (Characters.games c)
    ∧ Games._id <$> found
      = filter (λ i, is_Some (lookupId Games._id i (games db)))
          (Characters.games c)
    ∧ Forall (λ gm, lookupId Games._id (Games._id gm) (games db) = Some gm)
        found.
Proof.
  intros Hstatus.
  destruct (createCharacter_outcome oid body db)
    as [(c & ids & E & _ & Hbody & _ & Hnew & _)|[_ Herr]].
  - destruct (new_character_fields _ _ _ _ _ _ _ _ _ _ Hnew)
      as (Hid & Horg & Hcast).
    rewrite Hbody in Hcast. cbn [default castArray] in Hcast.
    exists c, ids, (resolve Games._id id (games db) (Characters.games c)).
    split_and!; [done|done|done|done|done|done|apply resolve_keys|].
    eapply Forall_impl; [apply resolve_stored|]. by intros gm [? _].
  - destruct Herr as [[f E]|[E|E]]; rewrite E in Hstatus; done.
Qed.

(** X15.  A character create whose required fields are all there and
    whose [games] is not a list is answered 500, not 400, and stores
    nothing: the identifiers are checked with a method that only a list
    has. *)
Theorem create_character_games_not_a_list oid body db v :
  (∀ f, f ∈ createCharacter_requiredFields → ¬ falsy (body !! f)) →
  body !! "games" = Some v →
  (∀ ids, v ≠ JArr ids) →
  createCharacter oid body db = (internalServerError, db).
Proof.
  intros Hall Hgames Hlist.
  assert (firstMissing createCharacter_requiredFields body = None) as N.
  { apply firstMissing_None, Forall_forall. intros f Hf.
    specialize (Hall f Hf). unfold falsy in Hall.
    by destruct (truthy (body !! f)). }
  assert (truthy (body !! "games") = true) as Htruthy.
  { apply firstMissing_None in N. rewrite Forall_forall in N.
    apply N. by repeat constructor. }
  unfold createCharacter, someInvalidGameId. rewrite N, Htruthy, Hgames.
  destruct v; try done. by destruct (Hlist l).
Qed.
End Creates.

(** * Decimal numerals in the query string *)

Local Abbreviation digitsOf d :=
  (list_ascii_of_string (NilEmpty.string_of_uint d)).

Ltac read_digit IH :=
  match goal with
  | |- context [digitOf 10 ?c] =>
      let v := eval cbv in (digitOf 10 c) in
      change (digitOf 10 c) with v
  end;
  cbv iota beta.

Lemma readDigits_acc d a n :
  readDigits 10 (digitsOf d) (Z.pos a) n
  = (Z.pos (Pos.of_uint_acc d a), (n + Decimal.nb_digits d)%nat, []).
Proof.
  revert a n.
  induction d as [|d IH|d IH|d IH|d IH|d IH|d IH|d IH|d IH|d IH|d IH];
    intros a n;
    cbn [NilEmpty.string_of_uint list_ascii_of_string readDigits
         Pos.of_uint_acc Decimal.nb_digits];
    [by rewrite Nat.add_0_r|..];
    read_digit IH;
    match goal with
    | |- readDigits 10 _ ?acc _ = (Z.pos (Pos.of_uint_acc _ ?p), _, _) =>
        replace acc with (Z.pos p) by lia
    end;
    rewrite IH; do 2 f_equal; lia.
Qed.

Lemma readDigits_uint d n :
  readDigits 10 (digitsOf d) 0 n
  = (Z.of_N (Pos.of_uint d), (n + Decimal.nb_digits d)%nat, []).
Proof.
  revert n.
  induction d as [|d IH|d IH|d IH|d IH|d IH|d IH|d IH|d IH|d IH|d IH];
    intros n;
    cbn [NilEmpty.string_of_uint list_ascii_of_string readDigits
         Pos.of_uint Decimal.nb_digits];
    [by rewrite Nat.add_0_r|..];
    read_digit IH.
  - change (0 * 10 + 0) with 0. rewrite IH. do 2 f_equal. lia.
  - change (0 * 10 + 1) with (Z.pos 1). rewrite readDigits_acc.
    do 2 f_equal. lia.
  - change (0 * 10 + 2) with (Z.pos 2). rewrite readDigits_acc.
    do 2 f_equal. lia.
  - change (0 * 10 + 3) with (Z.pos 3). rewrite readDigits_acc.
    do 2 f_equal. lia.
  - change (0 * 10 + 4) with (Z.pos 4). rewrite readDigits_acc.
    do 2 f_equal. lia.
  - change (0 * 10 + 5) with (Z.pos 5). rewrite readDigits_acc.
    do 2 f_equal. lia.
  - change (0 * 10 + 6) with (Z.pos 6). rewrite readDigits_acc.
    do 2 f_equal. lia.
  - change (0 * 10 + 7) with (Z.pos 7). rewrite readDigits_acc.
    do 2 f_equal. lia.
  - change (0 * 10 + 8) with (Z.pos 8). rewrite readDigits_acc.
    do 2 f_equal. lia.
  - change (0 * 10 + 9) with (Z.pos 9). rewrite readDigits_acc.
    do 2 f_equal. lia.
Qed.

Lemma digits_not_white d :
  Forall (λ c, isStrWhiteSpaceChar c = false) (digitsOf d).
Proof. induction d; simpl; by constructor. Qed.

Lemma trim_not_white l :
  Forall (λ c, isStrWhiteSpaceChar c = false) l → trim l = l.
Proof.
  assert (∀ l, Forall (λ c, isStrWhiteSpaceChar c = false) l →
               trimStart l = l) as Hstart.
  { intros [|c l']; [done|]. intros [Hc _]%Forall_cons. simpl.
    by rewrite Hc. }
  intros Hl. unfold trim. rewrite (Hstart l Hl).
  rewrite Hstart by (by apply Forall_rev). apply rev_involutive.
Qed.

Lemma nonDecimal_digits d : nonDecimal (digitsOf d) = None.
Proof. destruct d as [|d|d|d|d|d|d|d|d|d|d]; try done; by destruct d. Qed.

Lemma signedDecimal_digits d :
  signedDecimal (digitsOf d) = unsignedDecimal (digitsOf d).
Proof. by destruct d. Qed.

Lemma unsignedDecimal_digits d :
  d ≠ Decimal.Nil → Z.of_N (Pos.of_uint d) ≤ 2 ^ 53 →
  unsignedDecimal (digitsOf d) = ofZ (Z.of_N (Pos.of_uint d)).
Proof.
  intros Hd Hmax. unfold unsignedDecimal.
  rewrite bool_decide_eq_false_2 by (by destruct d).
  rewrite readDigits_uint. cbn [readExponent].
  destruct (Nat.eqb_spec (0 + Decimal.nb_digits d + 0) 0) as [E|_].
  { destruct d; simpl in E; done || lia. }
  unfold scale10. change (0 - Z.of_nat 0) with 0.
  cbn [Z.leb Z.compare]. rewrite Z.pow_0_r, Z.mul_1_r.
  apply round64_whole. lia.
Qed.

(** The decimal numeral of a positive whole number up to 2^53 is read
    as that number. *)
Lemma Number_decimal p :
  Z.pos p ≤ 2 ^ 53 → Number (QString (decimal p)) = ofZ (Z.pos p).
Proof.
  intros Hmax.
  pose proof (Unsigned.to_uint_nonnil p) as Hnil.
  unfold Number, StringToNumber, decimal.
  rewrite trim_not_white by apply digits_not_white.
  transitivity
    (match nonDecimal (digitsOf (Pos.to_uint p)) with
     | Some n => n
     | None => signedDecimal (digitsOf (Pos.to_uint p))
     end).
  { by destruct (Pos.to_uint p). }
  rewrite nonDecimal_digits, signedDecimal_digits.
  rewrite unsignedDecimal_digits; rewrite ?Unsigned.of_to; done.
Qed.

(** X16.  A page and a limit written as decimal numerals of positive
    whole numbers [P] and [L] with [P * L <= 2^53] are read as the numbers
    they write: the list of page [P] with limit [L] is answered 200 with
    the documents from offset [(P-1)*L], at most [L] of them. *)
Theorem decimal_query_is_read_as_the_number (P L : positive) db :
  Z.pos P * Z.pos L ≤ 2 ^ 53 →
  Number (QString (decimal P)) = ofZ (Z.pos P)
  ∧ getAllGames (mkQuery (QString (decimal P)) (QString (decimal L))) db
    = (mkResponse 200
         (GamesPage (ofZ (Z.pos P)) (ofZ (Z.pos L)) (length (games db))
            (populateMainCharacters db
               <$> take (Pos.to_nat L)
                     (drop ((Pos.to_nat P - 1) * Pos.to_nat L) (games db)))),
       db)
  ∧ getAllCharacters (mkQuery (QString (decimal P)) (QString (decimal L))) db
    = (mkResponse 200
         (CharactersPage (ofZ (Z.pos P)) (ofZ (Z.pos L))
            (length (characters db))
            (populateGameTitles db
               <$> take (Pos.to_nat L)
                     (drop ((Pos.to_nat P - 1) * Pos.to_nat L)
                        (characters db)))), db).
Proof.
  intros Hmax.
  assert (Z.to_nat (Z.pos L) = Pos.to_nat L) as EL by lia.
  assert (Z.to_nat ((Z.pos P - 1) * Z.pos L)
          = ((Pos.to_nat P - 1) * Pos.to_nat L)%nat) as EP by nia.
  assert (Z.pos P ≤ 2 ^ 53) as HP by nia.
  assert (Z.pos L ≤ 2 ^ 53) as HL by nia.
  split_and!; [by apply Number_decimal| |].
  - rewrite <- EP, <- EL. apply getAllGames_whole; try lia;
      cbn [page limit]; apply num_or_ofZ; (lia || by apply Number_decimal).
  - rewrite <- EP, <- EL. apply getAllCharacters_whole; try lia;
      cbn [page limit]; apply num_or_ofZ; (lia || by apply Number_decimal).
Qed.

(** * Walking the pages *)

Lemma windows_tile {A} (l : list A) (n a b : nat) :
  take n (drop (a * n) l) ++ take (b * n) (drop (S a * n) l)
  = take (S b * n) (drop (a * n) l).
Proof.
  replace (S a * n)%nat with (a * n + n)%nat by lia.
  by rewrite <- drop_drop, take_take_drop.
Qed.

Lemma pages_of_games db (L : Z) queries (s : nat) :
  1 ≤ L → Z.of_nat (s + length queries) * L ≤ 2 ^ 53 →
  (∀ i q, queries !! i = Some q →
          Number (page q) = ofZ (Z.of_nat (s + i) + 1)
          ∧ Number (limit q) = ofZ L) →
  concat ((λ q, gamesOf (getAllGames q db).1) <$> queries)
  = populateMainCharacters db
      <$> take (length queries * Z.to_nat L)
            (drop (s * Z.to_nat L) (games db)).
Proof.
  intros HL. revert s.
  induction queries as [|q queries IH]; intros s Hmax Hq; [done|].
  destruct (Hq 0%nat q eq_refl) as [Ep El].
  cbn [length] in Hmax.
  rewrite fmap_cons, concat_cons, (IH (S s)).
  - rewrite (getAllGames_whole q db (Z.of_nat (s + 0) + 1) L);
      [|lia|lia|nia|apply num_or_ofZ; [lia|done]|by apply num_or_ofZ].
    cbn [fst gamesOf json length]. rewrite <- fmap_app.
    replace (Z.to_nat ((Z.of_nat (s + 0) + 1 - 1) * L))
      with (s * Z.to_nat L)%nat by nia.
    by rewrite windows_tile.
  - by replace (S s + length queries)%nat
      with (s + S (length queries))%nat by lia.
  - intros i q' Hi. destruct (Hq (S i) q' Hi) as [? ?].
    split; [|done]. by replace (S s + i)%nat with (s + S i)%nat by lia.
Qed.

Lemma pages_of_characters db (L : Z) queries (s : nat) :
  1 ≤ L → Z.of_nat (s + length queries) * L ≤ 2 ^ 53 →
  (∀ i q, queries !! i = Some q →
          Number (page q) = ofZ (Z.of_nat (s + i) + 1)
          ∧ Number (limit q) = ofZ L) →
  concat ((λ q, charactersOf (getAllCharacters q db).1) <$> queries)
  = populateGameTitles db
      <$> take (length queries * Z.to_nat L)
            (drop (s * Z.to_nat L) (characters db)).
Proof.
  intros HL. revert s.
  induction queries as [|q queries IH]; intros s Hmax Hq; [done|].
  destruct (Hq 0%nat q eq_refl) as [Ep El].
  cbn [length] in Hmax.
  rewrite fmap_cons, concat_cons, (IH (S s)).
  - rewrite (getAllCharacters_whole q db (Z.of_nat (s + 0) + 1) L);
      [|lia|lia|nia|apply num_or_ofZ; [lia|done]|by apply num_or_ofZ].
    cbn [fst charactersOf json length]. rewrite <- fmap_app.
    replace (Z.to_nat ((Z.of_nat (s + 0) + 1 - 1) * L))
      with (s * Z.to_nat L)%nat by nia.
    by rewrite windows_tile.
  - by replace (S s + length queries)%nat
      with (s + S (length queries))%nat by lia.
  - intros i q' Hi. destruct (Hq (S i) q' Hi) as [? ?].
    split; [|done]. by replace (S s + i)%nat with (s + S i)%nat by lia.
Qed.

(** X17.  Requests for the pages 1, 2, ..., k with one limit [L], where
    [k * L <= 2^53], walk the collection: their lists one after the other
    are the first [k*L] documents in natural order, each once, and once
    the requests reach the end they are all the documents. *)
Theorem pages_walk_the_collection db (L : Z) (queries : list Query) :
  1 ≤ L → Z.of_nat (length queries) * L ≤ 2 ^ 53 →
  (∀ i q, queries !! i = Some q →
          Number (page q) = ofZ (Z.of_nat i + 1)
          ∧ Number (limit q) = ofZ L) →
  (concat ((λ q, gamesOf (getAllGames q db).1) <$> queries)
   = populateMainCharacters db
       <$> take (length queries * Z.to_nat L) (games db))
  ∧ (concat ((λ q, charactersOf (getAllCharacters q db).1) <$> queries)
     = populateGameTitles db
         <$> take (length queries * Z.to_nat L) (characters db))
  ∧ ((length (games db) ≤ length queries * Z.to_nat L)%nat →
     concat ((λ q, gamesOf (getAllGames q db).1) <$> queries)
     = populateMainCharacters db <$> games db).
Proof.
  intros HL Hmax Hq.
  pose proof (pages_of_games db L queries 0 HL Hmax Hq) as Hg.
  pose proof (pages_of_characters db L queries 0 HL Hmax Hq) as Hc.
  rewrite Nat.mul_0_l, drop_0 in Hg. rewrite Nat.mul_0_l, drop_0 in Hc.
  split_and!; [done|done|]. intros Hall. rewrite Hg. by rewrite take_ge.
Qed.

(** * The further properties on the example library *)

Lemma patch_of_a_full_body_is_put_witness :
  let body :=
    <["mainCharacters" := JArr [JStr Example.oid5]]> Example.residentEvil in
  (∀ f, f ∈ ["title"; "releaseYear"; "platforms"; "genre"; "description";
             "developer"; "mainCharacters"] → ¬ falsy (body !! f))
  ∧ @updateGameByIdPatch Example.lib Example.oid2 body Example.library
    = @updateGameById Example.lib Example.oid2 body Example.library.
Proof.
  intros body.
  assert (∀ f, f ∈ ["title"; "releaseYear"; "platforms"; "genre";
                    "description"; "developer"; "mainCharacters"] →
               ¬ falsy (body !! f)) as Hall.
  { intros f Hf. elem_of_fields Hf; subst f; vm_compute; discriminate. }
  split; [exact Hall|].
  exact (@patch_of_a_full_body_is_put Example.lib Example.oid2 body
           Example.library Hall).
Defined.

Lemma updated_game_is_found_witness :
  let body : gmap string JsValue := {[ "genre" := JStr "Survival horror" ]} in
  status (@updateGameByIdPatch Example.lib Example.oid2 body
            Example.library).1 = 200%nat
  ∧ ∃ g, (@updateGameByIdPatch Example.lib Example.oid2 body
            Example.library).1 = mkResponse 200 (Game g)
         ∧ @getGameById Example.lib Example.oid2
             (@updateGameByIdPatch Example.lib Example.oid2 body
                Example.library).2
           = (mkResponse 200 (Game g),
              (@updateGameByIdPatch Example.lib Example.oid2 body
                 Example.library).2).
Proof.
  intros body.
  assert (status (@updateGameByIdPatch Example.lib Example.oid2 body
                    Example.library).1 = 200%nat) as Hstatus by reflexivity.
  split; [exact Hstatus|].
  exact (proj1 (@updated_game_is_found Example.lib Example.oid2 body
                  Example.library) Hstatus).
Defined.

Lemma put_rejects_what_create_rejects_witness :
  let body : gmap string JsValue := {[ "title" := JStr "Resident Evil 4" ]} in
  @isValid Example.lib (JStr Example.oid2) = true
  ∧ rejectedFor "releaseYear"
      (@createGame Example.lib Example.oid6 body Example.library).1
  ∧ @updateGameById Example.lib Example.oid2 body Example.library
    = (mkResponse 400 (Message (fieldRequired "releaseYear")),
       Example.library).
Proof.
  intros body.
  assert (@isValid Example.lib (JStr Example.oid2) = true) as Hvalid
    by reflexivity.
  assert (rejectedFor "releaseYear"
            (@createGame Example.lib Example.oid6 body Example.library).1)
    as Hrej by reflexivity.
  split_and!; [exact Hvalid|exact Hrej|].
  exact (@put_rejects_what_create_rejects Example.lib Example.oid6
           Example.oid2 body Example.library "releaseYear" Hvalid Hrej).
Defined.

Lemma library_keys_unique : uniqueKeys Example.library.
Proof.
  unfold uniqueKeys.
  split_and!; refine (bool_decide_unpack _ _); vm_compute; exact I.
Defined.

Lemma handlers_keep_keys_unique_witness :
  let body := <["title" := JStr "Resident Evil 2"]> Example.residentEvil in
  uniqueKeys Example.library
  ∧ uniqueKeys
      (@updateGameByIdPatch Example.lib Example.oid1 body Example.library).2
  ∧ uniqueKeys (@deleteGameById Example.lib Example.oid3 Example.library).2.
Proof.
  intros body.
  destruct (@handlers_keep_keys_unique Example.lib Example.oid6 Example.oid1
              body Example.library library_keys_unique)
    as (_ & _ & Hpatch & _).
  destruct (@handlers_keep_keys_unique Example.lib Example.oid6 Example.oid3
              body Example.library library_keys_unique)
    as (_ & _ & _ & Hdelete & _).
  split_and!; [exact library_keys_unique|exact Hpatch|exact Hdelete].
Defined.

Lemma delete_removes_the_game_witness :
  let g := Example.game Example.oid3 "Resident Evil 3" 1999 [Example.oid5] in
  NoDup (Games._id <$> games Example.library)
  ∧ @isValid Example.lib (JStr Example.oid3) = true
  ∧ @castObjectId Example.lib (JStr Example.oid3) = Some Example.oid3
  ∧ lookupId Games._id Example.oid3 (games Example.library) = Some g
  ∧ ∃ db',
      @deleteGameById Example.lib Example.oid3 Example.library
      = (mkResponse 200 (Message "Game Deleted Correctly"), db')
      ∧ lookupId Games._id Example.oid3 (games db') = None
      ∧ characters db' = characters Example.library
      ∧ @getGameById Example.lib Example.oid3 db' = (gameNotFound, db').
Proof.
  intros g.
  assert (NoDup (Games._id <$> games Example.library)) as Hnodup
    by exact (proj1 library_keys_unique).
  assert (@isValid Example.lib (JStr Example.oid3) = true) as Hvalid
    by reflexivity.
  assert (@castObjectId Example.lib (JStr Example.oid3) = Some Example.oid3)
    as Hcast by reflexivity.
  assert (lookupId Games._id Example.oid3 (games Example.library) = Some g)
    as Hfound by reflexivity.
  destruct (@delete_removes_the_game Example.lib Example.oid3 Example.oid3
              Example.library g Hnodup Hvalid Hcast Hfound)
    as (db' & Hdelete & Hgone & _ & _ & Hchars & Hget & _).
  split_and!; [exact Hnodup|exact Hvalid|exact Hcast|exact Hfound|].
  exists db'. split_and!; [exact Hdelete|exact Hgone|exact Hchars|exact Hget].
Defined.

Lemma unknown_id_is_not_found_witness :
  let body : gmap string JsValue := {[ "title" := JStr "Resident Evil 4" ]} in
  @isValid Example.lib (JStr Example.oid6) = true
  ∧ @castObjectId Example.lib (JStr Example.oid6) = Some Example.oid6
  ∧ lookupId Games._id Example.oid6 (games Example.library) = None
  ∧ @getGameById Example.lib Example.oid6 Example.library
    = (gameNotFound, Example.library)
  ∧ @deleteGameById Example.lib Example.oid6 Example.library
    = (gameNotFound, Example.library)
  ∧ (@updateGameByIdPatch Example.lib Example.oid6 body Example.library
     = (gameNotFound, Example.library)
     ∨ @updateGameByIdPatch Example.lib Example.oid6 body Example.library
       = (internalServerError, Example.library)).
Proof.
  intros body.
  assert (@isValid Example.lib (JStr Example.oid6) = true) as Hvalid
    by reflexivity.
  assert (@castObjectId Example.lib (JStr Example.oid6) = Some Example.oid6)
    as Hcast by reflexivity.
  assert (lookupId Games._id Example.oid6 (games Example.library) = None)
    as Hnone by reflexivity.
  destruct (@unknown_id_is_not_found Example.lib Example.oid6 Example.oid6
              body Example.library Hvalid Hcast Hnone)
    as (Hget & Hdelete & Hpatch & _).
  split_and!; [exact Hvalid|exact Hcast|exact Hnone|exact Hget|exact Hdelete
              |exact Hpatch].
Defined.

Lemma failed_request_changes_nothing_witness :
  let body : gmap string JsValue := {[ "title" := JStr "Resident Evil 2" ]} in
  status (@updateGameByIdPatch Example.lib Example.oid1 body
            Example.library).1 ≠ 200%nat
  ∧ (@updateGameByIdPatch Example.lib Example.oid1 body Example.library).2
    = Example.library
  ∧ status (@createGame Example.lib Example.oid6 Example.residentEvil
              Example.library).1 ≠ 201%nat
  ∧ (@createGame Example.lib Example.oid6 Example.residentEvil
       Example.library).2 = Example.library.
Proof.
  intros body.
  assert (status (@updateGameByIdPatch Example.lib Example.oid1 body
                    Example.library).1 ≠ 200%nat) as Hpatch
    by (vm_compute; lia).
  assert (status (@createGame Example.lib Example.oid6 Example.residentEvil
                    Example.library).1 ≠ 201%nat) as Hcreate
    by (vm_compute; lia).
  split_and!; [exact Hpatch| |exact Hcreate|].
  - destruct (@failed_request_changes_nothing Example.lib Example.oid6
                Example.oid1 body (mkQuery QUndefined QUndefined)
                Example.library) as (_ & _ & _ & _ & _ & H & _).
    exact (H Hpatch).
  - destruct (@failed_request_changes_nothing Example.lib Example.oid6
                Example.oid1 Example.residentEvil
                (mkQuery QUndefined QUndefined) Example.library)
      as (_ & _ & _ & H & _).
    exact (H Hcreate).
Defined.

Lemma handlers_answer_with_their_statuses_witness :
  let r := (@deleteGameById Example.lib Example.oid6 Example.library).1 in
  r ∈ [(@createGame Example.lib Example.oid6 Example.residentEvil
          Example.library).1;
       (@createCharacter Example.lib Example.oid6 Example.residentEvil
          Example.library).1;
       (getAllGames (mkQuery QUndefined QUndefined) Example.library).1;
       (getAllCharacters (mkQuery QUndefined QUndefined) Example.library).1;
       (@getGameById Example.lib Example.oid6 Example.library).1;
       (@updateGameById Example.lib Example.oid6 Example.residentEvil
          Example.library).1;
       (@updateGameByIdPatch Example.lib Example.oid6 Example.residentEvil
          Example.library).1;
       (@deleteGameById Example.lib Example.oid6 Example.library).1]
  ∧ errorShape r.
Proof.
  intros r.
  assert (r ∈ [(@createGame Example.lib Example.oid6 Example.residentEvil
                  Example.library).1;
               (@createCharacter Example.lib Example.oid6
                  Example.residentEvil Example.library).1;
               (getAllGames (mkQuery QUndefined QUndefined)
                  Example.library).1;
               (getAllCharacters (mkQuery QUndefined QUndefined)
                  Example.library).1;
               (@getGameById Example.lib Example.oid6 Example.library).1;
               (@updateGameById Example.lib Example.oid6
                  Example.residentEvil Example.library).1;
               (@updateGameByIdPatch Example.lib Example.oid6
                  Example.residentEvil Example.library).1;
               (@deleteGameById Example.lib Example.oid6
                  Example.library).1]) as Hin.
  { do 7 apply list_elem_of_further. apply list_elem_of_here. }
  split; [exact Hin|].
  destruct (@handlers_answer_with_their_statuses Example.lib Example.oid6
              Example.oid6 Example.residentEvil
              (mkQuery QUndefined QUndefined) Example.library)
    as (_ & _ & _ & _ & _ & _ & _ & _ & Hshape).
  exact (Hshape r Hin).
Defined.

Lemma second_create_of_a_title_fails_witness :
  let first :=
    @createGame Example.lib Example.oid1 Example.residentEvil Example.empty in
  status first.1 = 201%nat
  ∧ @createGame Example.lib Example.oid2 Example.residentEvil first.2
    = (internalServerError, first.2).
Proof.
  intros first.
  assert (@createGame Example.lib Example.oid1 Example.residentEvil
            Example.empty = (first.1, first.2)) as Hcreate by reflexivity.
  assert (status first.1 = 201%nat) as Hstatus by reflexivity.
  split; [exact Hstatus|].
  exact (@second_create_of_a_title_fails Example.lib Example.oid1
           Example.oid2 Example.residentEvil Example.empty first.1 first.2
           Hcreate Hstatus).
Defined.

Lemma created_game_is_listed_last_witness :
  let body := <["title" := JStr "Resident Evil Zero"]> Example.residentEvil in
  let g :=
    Games.mkGames Example.oid6 "Resident Evil Zero" (ofZ 1996)
      ["PlayStation"] "Horror" "Mansion" [] [] [] "Capcom" in
  let db' := mkDb (games Example.library ++ [g]) [Example.jill] in
  @createGame Example.lib Example.oid6 body Example.library
  = (mkResponse 201 (Game g), db')
  ∧ (length (games Example.library) < 10)%nat
  ∧ getAllGames (mkQuery QUndefined QUndefined) db'
    = (mkResponse 200
         (GamesPage (ofZ 1) (ofZ 10) 5
            (gamesOf
               (getAllGames (mkQuery QUndefined QUndefined)
                  Example.library).1 ++ [Games.populated g []])), db').
Proof.
  intros body g db'.
  assert (@createGame Example.lib Example.oid6 body Example.library
          = (mkResponse 201 (Game g), db')) as Hcreate by reflexivity.
  assert (length (games Example.library) < 10)%nat as Hfew
    by (vm_compute; lia).
  split_and!; [exact Hcreate|exact Hfew|].
  exact (@created_game_is_listed_last Example.lib Example.oid6 body
           Example.library g db' Hcreate Hfew).
Defined.

Lemma create_character_stores_and_populates_witness :
  let body :=
    <["games" := JArr [JStr Example.oid4; JStr Example.oid6]]>
      Example.chris in
  status (@createCharacter Example.lib Example.oid6 body
            Example.library).1 = 201%nat
  ∧ ∃ c found,
      @createCharacter Example.lib Example.oid6 body Example.library
      = (mkResponse 201 (Character (Characters.populated c found)),
         mkDb (games Example.library) (characters Example.library ++ [c]))
      ∧ c = Characters.mkCharacters Example.oid6 "Chris Redfield" "Pilot"
              (ofZ 25) "American" "181 cm" "80 kg" ["Officer"]
              [Example.oid4; Example.oid6] []
      ∧ Games._id <$> found = [Example.oid4].
Proof.
  intros body.
  assert (status (@createCharacter Example.lib Example.oid6 body
                    Example.library).1 = 201%nat) as Hstatus by reflexivity.
  split; [exact Hstatus|].
  destruct (@create_character_stores_and_populates Example.lib Example.oid6
              body Example.library Hstatus)
    as (c & ids & found & E & _ & _ & Hnew & _ & _ & Hfound & _).
  assert (@Characters.new Example.lib Example.oid6 (body !! "name")
            (body !! "description") (body !! "age") (body !! "nationality")
            (body !! "height") (body !! "weight") (body !! "occupations")
            (body !! "games")
          = Some (Characters.mkCharacters Example.oid6 "Chris Redfield"
                    "Pilot" (ofZ 25) "American" "181 cm" "80 kg" ["Officer"]
                    [Example.oid4; Example.oid6] [])) as Hdoc by reflexivity.
  rewrite Hdoc in Hnew. injection Hnew as Hc.
  exists c, found. split_and!; [exact E|by symmetry|].
  rewrite Hfound, <- Hc. reflexivity.
Defined.

Lemma create_character_games_not_a_list_witness :
  let body := <["games" := JStr Example.oid1]> Example.chris in
  (∀ f, f ∈ createCharacter_requiredFields → ¬ falsy (body !! f))
  ∧ body !! "games" = Some (JStr Example.oid1)
  ∧ (∀ ids, JStr Example.oid1 ≠ JArr ids)
  ∧ @createCharacter Example.lib Example.oid6 body Example.library
    = (internalServerError, Example.library).
Proof.
  intros body.
  assert (∀ f, f ∈ createCharacter_requiredFields → ¬ falsy (body !! f))
    as Hall.
  { intros f Hf. elem_of_fields Hf; subst f; vm_compute; discriminate. }
  assert (body !! "games" = Some (JStr Example.oid1)) as Hgames
    by reflexivity.
  assert (∀ ids, JStr Example.oid1 ≠ JArr ids) as Hlist
    by (intros ids; discriminate).
  split_and!; [exact Hall|exact Hgames|exact Hlist|].
  exact (@create_character_games_not_a_list Example.lib Example.oid6 body
           Example.library (JStr Example.oid1) Hall Hgames Hlist).
Defined.

Lemma pages_walk_the_collection_witness :
  let queries :=
    [mkQuery (QString "1") (QString "3"); mkQuery (QString "2") (QString "3")]
  in
  1 ≤ 3 ∧ Z.of_nat (length queries) * 3 ≤ 2 ^ 53
  ∧ (∀ i q, queries !! i = Some q →
            Number (page q) = ofZ (Z.of_nat i + 1)
            ∧ Number (limit q) = ofZ 3)
  ∧ (length (games Example.library) ≤ length queries * Z.to_nat 3)%nat
  ∧ concat ((λ q, gamesOf (getAllGames q Example.library).1) <$> queries)
    = populateMainCharacters Example.library <$> games Example.library.
Proof.
  intros queries.
  assert (1 ≤ 3) as HL by lia.
  assert (∀ i q, queries !! i = Some q →
                 Number (page q) = ofZ (Z.of_nat i + 1)
                 ∧ Number (limit q) = ofZ 3) as Hq.
  { intros [|[|i]] q [= <-]; split; reflexivity. }
  assert (length (games Example.library) ≤ length queries * Z.to_nat 3)%nat
    as Hall by (vm_compute; lia).
  assert (Z.of_nat (length queries) * 3 ≤ 2 ^ 53) as Hmax
    by (vm_compute; discriminate).
  split_and!; [exact HL|exact Hmax|exact Hq|exact Hall|].
  destruct (pages_walk_the_collection Example.library 3 queries HL Hmax Hq)
    as (_ & _ & Hwalk).
  exact (Hwalk Hall).
Defined.

Lemma decimal_query_is_read_as_the_number_witness :
  Z.pos 2 * Z.pos 3 ≤ 2 ^ 53
  ∧ Number (QString "2") = ofZ 2
  ∧ getAllGames (mkQuery (QString "2") (QString "3")) Example.library
    = (mkResponse 200
         (GamesPage (ofZ 2) (ofZ 3) 4
            (populateMainCharacters Example.library
               <$> drop 3 (games Example.library))),
       Example.library).
Proof.
  assert (Z.pos 2 * Z.pos 3 ≤ 2 ^ 53) as Hmax by lia.
  split; [exact Hmax|].
  destruct (decimal_query_is_read_as_the_number 2 3 Example.library Hmax)
    as (Hread & Hgames & _).
  split; [exact Hread|exact Hgames].
Defined.
